(** * GaussianMixtureDiagHMM: EM for an HMM with diagonal Gaussian-mixture emissions

    Shallow embedding of [ssm_jax/hmm/models/gmm_diag_hmm.py].

    Numbers.  The program computes on JAX floating-point arrays.  A scalar is
    modelled as an extended real [xreal]: a real number, one of the two
    infinities, or NaN.  The rules for the special values are the IEEE ones
    ([log 0 = -inf], [exp (-inf) = 0], [inf - inf = NaN], [0 / 0 = NaN], NaN is
    absorbing); rounding, overflow and signed zeros are idealised away, so
    finite results are exact reals.

    Arrays.  A rank-1 array is a [list xreal], a rank-2 array a list of rows,
    a rank-3 array a list of matrices (row-major, as [jnp] indexes them).
    [vmap f] over the leading axis is [map f] (zipping when [f] takes several
    arguments). *)

From Stdlib Require Import Reals List Lra Lia Bool PeanoNat Permutation.
Import ListNotations.

Local Open Scope R_scope.

(* ================================================================= *)
(** ** Scalars *)

Inductive xreal : Type :=
| Fin (r : R)
| PInf
| NInf
| NaN.

Declare Scope xreal_scope.
Delimit Scope xreal_scope with X.
Bind Scope xreal_scope with xreal.

(** Sign of a real number, as a three-way comparison with zero. *)
Definition Rsign (r : R) : comparison :=
  match total_order_T 0 r with
  | inleft (left _) => Gt
  | inleft (right _) => Eq
  | inright _ => Lt
  end.

(** The infinity of a given sign; a zero sign stands for [0 * inf]. *)
Definition signed_inf (s : comparison) : xreal :=
  match s with
  | Gt => PInf
  | Lt => NInf
  | Eq => NaN
  end.

Definition xadd (a b : xreal) : xreal :=
  match a, b with
  | Fin x, Fin y => Fin (x + y)
  | NaN, _ | _, NaN => NaN
  | PInf, NInf | NInf, PInf => NaN
  | PInf, _ | _, PInf => PInf
  | NInf, _ | _, NInf => NInf
  end.

Definition xopp (a : xreal) : xreal :=
  match a with
  | Fin x => Fin (- x)
  | PInf => NInf
  | NInf => PInf
  | NaN => NaN
  end.

Definition xsub (a b : xreal) : xreal := xadd a (xopp b).

Definition xmul (a b : xreal) : xreal :=
  match a, b with
  | Fin x, Fin y => Fin (x * y)
  | NaN, _ | _, NaN => NaN
  | PInf, Fin y | Fin y, PInf => signed_inf (Rsign y)
  | NInf, Fin y | Fin y, NInf => signed_inf (CompOpp (Rsign y))
  | PInf, PInf | NInf, NInf => PInf
  | PInf, NInf | NInf, PInf => NInf
  end.

Definition xdiv (a b : xreal) : xreal :=
  match a, b with
  | Fin x, Fin y =>
      match Req_dec_T y 0 with
      | left _ => signed_inf (Rsign x)
      | right _ => Fin (x / y)
      end
  | NaN, _ | _, NaN => NaN
  | Fin _, (PInf | NInf) => Fin 0
  | (PInf | NInf), (PInf | NInf) => NaN
  | PInf, Fin y => match Rsign y with Lt => NInf | _ => PInf end
  | NInf, Fin y => match Rsign y with Lt => PInf | _ => NInf end
  end.

Definition xabs (a : xreal) : xreal :=
  match a with
  | Fin x => Fin (Rabs x)
  | PInf | NInf => PInf
  | NaN => NaN
  end.

(** [jnp.exp] *)
Definition xexp (a : xreal) : xreal :=
  match a with
  | Fin x => Fin (exp x)
  | PInf => PInf
  | NInf => Fin 0
  | NaN => NaN
  end.

(** [jnp.log] *)
Definition xlog (a : xreal) : xreal :=
  match a with
  | Fin x =>
      match Rsign x with
      | Gt => Fin (ln x)
      | Eq => NInf
      | Lt => NaN
      end
  | PInf => PInf
  | NInf | NaN => NaN
  end.

(** [jnp.isfinite] *)
Definition xisfinite (a : xreal) : bool :=
  match a with
  | Fin _ => true
  | _ => false
  end.

(** Binary maximum as [jnp.max] folds it: NaN propagates. *)
Definition xmax (a b : xreal) : xreal :=
  match a, b with
  | NaN, _ | _, NaN => NaN
  | PInf, _ | _, PInf => PInf
  | NInf, c | c, NInf => c
  | Fin x, Fin y => Fin (Rmax x y)
  end.

(** The comparison [a < b]; false when either side is NaN. *)
Definition xltb (a b : xreal) : bool :=
  match a, b with
  | Fin x, Fin y => if Rlt_dec x y then true else false
  | NInf, (Fin _ | PInf) | Fin _, PInf => true
  | _, _ => false
  end.

Definition xeq_dec (a b : xreal) : {a = b} + {a <> b}.
Proof.
  destruct a as [x| | |], b as [y| | |];
    try (left; reflexivity); try (right; discriminate).
  destruct (Req_dec_T x y) as [e|n].
  - left; subst; reflexivity.
  - right; intro H; apply n; injection H; trivial.
Defined.

Infix "+" := xadd : xreal_scope.
Infix "-" := xsub : xreal_scope.
Infix "*" := xmul : xreal_scope.
Infix "/" := xdiv : xreal_scope.
Notation "- x" := (xopp x) : xreal_scope.

(** Is a scalar a finite real; a non-negative one; a positive one? *)
Definition finite (a : xreal) : Prop := exists r, a = Fin r.
Definition xnonneg (a : xreal) : Prop := exists r, a = Fin r /\ 0 <= r.
Definition xpositive (a : xreal) : Prop := exists r, a = Fin r /\ 0 < r.

(** A value of the log domain: the log of a non-negative real. *)
Definition logval (l : xreal) : Prop := l = NInf \/ finite l.

(** The real [exp (l - c)] of a log-domain value [l]. *)
Definition exp_shifted (c : R) (l : xreal) : R :=
  match l with
  | Fin r => exp (r - c)
  | _ => 0
  end.

(** Sum of a list of reals. *)
Definition Rsum (l : list R) : R := fold_right Rplus 0 l.

(* ================================================================= *)
(** ** Arrays *)

Abbreviation vec := (list xreal).
Abbreviation mat := (list (list xreal)).
Abbreviation tens := (list (list (list xreal))).

(** [jnp.sum] of a rank-1 array. *)
Definition xsum (v : vec) : xreal := fold_right xadd (Fin 0) v.

(** [jnp.max] of a rank-1 array (minus infinity on an empty one). *)
Definition xmaximum (v : vec) : xreal := fold_right xmax NInf v.

(** Zipping map: the elementwise application of a binary function. *)
Fixpoint map2 {A B C} (f : A -> B -> C) (l1 : list A) (l2 : list B) : list C :=
  match l1, l2 with
  | a :: l1', b :: l2' => f a b :: map2 f l1' l2'
  | _, _ => []
  end.

Fixpoint map3 {A B C D} (f : A -> B -> C -> D)
         (l1 : list A) (l2 : list B) (l3 : list C) : list D :=
  match l1, l2, l3 with
  | a :: l1', b :: l2', c :: l3' => f a b c :: map3 f l1' l2' l3'
  | _, _, _ => []
  end.

(** The array of a given length built from its index function. *)
Definition tabulate {A} (n : nat) (f : nat -> A) : list A := map f (seq 0 n).

(** [a.sum(axis=0)] for an array of rank 2, 3 and 4; the dimensions that
    remain are explicit (an array carries them in its shape). *)
Definition sum_axis0_r2 (K : nat) (a : mat) : vec :=
  tabulate K (fun k => xsum (map (fun a_b => nth k a_b (Fin 0)) a)).

Definition sum_axis0_r3 (K M : nat) (a : tens) : mat :=
  tabulate K (fun k => sum_axis0_r2 M (map (fun a_b => nth k a_b []) a)).

Definition sum_axis0_r4 (K M D : nat) (a : list tens) : tens :=
  tabulate K (fun k => sum_axis0_r3 M D (map (fun a_b => nth k a_b []) a)).

(** Indexing, with zero outside the array. *)
Definition vget (v : vec) (i : nat) : xreal := nth i v (Fin 0).
Definition mget (a : mat) (i j : nat) : xreal := vget (nth i a []) j.
Definition tget (a : tens) (i j k : nat) : xreal := mget (nth i a []) j k.

Arguments vget v i%_nat.
Arguments mget a (i j)%_nat.
Arguments tget a (i j k)%_nat.

(* ================================================================= *)
(** ** Library functions used by the program *)

(** [jax.scipy.special.logsumexp] along the last axis.  The maximum is
    subtracted before exponentiating; a maximum that is not finite is replaced
    by zero, as the library does. *)
Definition logsumexp (a : vec) : xreal :=
  let amax := xmaximum a in
  let amax := if xisfinite amax then amax else Fin 0 in
  (xlog (xsum (map (fun x => xexp (x - amax)) a)) + amax)%X.

(** [tfd.MultivariateNormalDiag(loc, scale_diag).log_prob(x)]: the sum over
    the coordinates of the standard normal log-density of the standardised
    coordinate, minus the log of the absolute scale. *)
Definition MultivariateNormalDiag_log_prob (loc scale_diag x : vec) : xreal :=
  xsum (map3 (fun mu s xn =>
                let z := ((xn - mu) / s)%X in
                (Fin (- (1 / 2)) * (z * z) - Fin (ln (2 * PI) / 2)
                 - xlog (xabs s))%X)
             loc scale_diag x).

(** [tfd.Dirichlet(concentration).mode()]: the closed form
    [(c_i - 1) / (sum c - k)] for an event of size [k] where every
    concentration exceeds one, and NaN in every entry otherwise (the library's
    default, [allow_nan_stats=True]). *)
Definition Dirichlet_mode (concentration : vec) : vec :=
  let k := Fin (INR (length concentration)) in
  let total_concentration := xsum concentration in
  let mode :=
    map (fun c => ((c - Fin 1) / (total_concentration - k))%X) concentration in
  if forallb (xltb (Fin 1)) concentration then mode
  else map (fun _ => NaN) concentration.

(* ================================================================= *)
(** ** Data model *)

(** The posterior returned by the smoother. *)
Module HMMPosterior.
Record t : Type := mk {
  marginal_loglik : xreal;
  filtered_probs : mat;
  predicted_probs : mat;
  smoothed_probs : mat
}.
End HMMPosterior.

(** [GMMDiagHMMSuffStats], the statistics of one sequence.  A batch of them
    (in the program one record whose fields carry a leading batch axis) is a
    list of records, one per sequence. *)
Module GMMDiagHMMSuffStats.
Record t : Type := mk {
  marginal_loglik : xreal;
  initial_probs : vec;
  trans_probs : mat;
  N : mat;
  Sx : tens;
  SxxT : tens
}.
End GMMDiagHMMSuffStats.

(** The model object; every field is the [value] of the [Parameter] of the
    same name. *)
Record GaussianMixtureDiagHMM : Type := mkHMM {
  initial_probs : vec;
  transition_matrix : mat;
  _emission_mixture_weights : mat;
  _emission_means : tens;
  _emission_cov_diag_factors : tens;
  _emission_mixture_weights_concentration : vec;
  _emission_prior_mean : mat;
  _emission_prior_mean_concentration : vec;
  _emission_prior_shape : vec;
  _emission_prior_scale : mat
}.

(** The dimensions, read off [emission_means.shape]. *)
Definition num_states (self : GaussianMixtureDiagHMM) : nat :=
  length (_emission_means self).
Definition num_components (self : GaussianMixtureDiagHMM) : nat :=
  length (hd [] (_emission_means self)).
Definition emission_dim (self : GaussianMixtureDiagHMM) : nat :=
  length (hd [] (hd [] (_emission_means self))).

(* ================================================================= *)
(** ** The E-step *)

Section EStep.

(** Collaborators imported from other modules of the package: the
    forward-backward smoother, the transition-probability estimator, and the
    base class's per-time-step, per-state conditional log-likelihoods. *)
Variable hmm_smoother : vec -> mat -> mat -> HMMPosterior.t.
Variable compute_transition_probs : mat -> HMMPosterior.t -> mat.
Variable _compute_conditional_logliks : GaussianMixtureDiagHMM -> mat -> mat.

Definition _compute_initial_probs (self : GaussianMixtureDiagHMM) : vec :=
  initial_probs self.

Definition _compute_transition_matrices (self : GaussianMixtureDiagHMM) : mat :=
  transition_matrix self.

(** The body of the lambda that [prob_fn] maps over the states: for each
    component, the log-density of [x] plus the log of the mixture weight. *)
Definition component_logprobs (x : vec) (mus sigmas : mat) (weights : vec) : vec :=
  map2 xadd
       (map2 (fun mu sigma => MultivariateNormalDiag_log_prob mu sigma x) mus sigmas)
       (map xlog weights).

(** [logprobs - logsumexp(logprobs, axis=-1, keepdims=True)] on one row. *)
Definition log_normalize (row : vec) : vec :=
  let lse := logsumexp row in
  map (fun lp => (lp - lse)%X) row.

Definition prob_fn (self : GaussianMixtureDiagHMM) (x : vec) : mat :=
  let logprobs :=
    map3 (component_logprobs x)
         (_emission_means self)
         (_emission_cov_diag_factors self)
         (_emission_mixture_weights self) in
  let logprobs := map log_normalize logprobs in
  map (map xexp) logprobs.

(** [jnp.einsum("tk,tkm->tkm", a, b)] *)
Definition einsum_tk_tkm (a : mat) (b : tens) : tens :=
  map2 (fun a_t b_t => map2 (fun a_tk b_tk => map (xmul a_tk) b_tk) a_t b_t) a b.

(** [jnp.einsum("tkm,tn->kmn", a, e)]: entry [(k,m,n)] is the sum over [t] of
    [a[t,k,m] * e[t,n]]. *)
Definition einsum_tkm_tn (K M D : nat) (a : tens) (e : mat) : tens :=
  tabulate K (fun k => tabulate M (fun m => tabulate D (fun n =>
    xsum (map2 (fun a_t e_t => (mget a_t k m * vget e_t n)%X) a e)))).

(** [jnp.einsum("tkm,tn,tn->kmn", a, e, e)] *)
Definition einsum_tkm_tn_tn (K M D : nat) (a : tens) (e : mat) : tens :=
  tabulate K (fun k => tabulate M (fun m => tabulate D (fun n =>
    xsum (map2 (fun a_t e_t => (mget a_t k m * vget e_t n * vget e_t n)%X) a e)))).

(** The statistics of one sequence.  The output dimensions of the
    contractions are those of the model, which the emissions must share; the
    initial distribution is the first row of the smoothed probabilities. *)
Definition _single_e_step (self : GaussianMixtureDiagHMM) (emissions : mat)
  : GMMDiagHMMSuffStats.t :=
  let posterior := hmm_smoother (_compute_initial_probs self)
                                (_compute_transition_matrices self)
                                (_compute_conditional_logliks self emissions) in
  let initial_probs := nth 0 (HMMPosterior.smoothed_probs posterior) [] in
  let trans_probs := compute_transition_probs (transition_matrix self) posterior in
  let K := num_states self in
  let M := num_components self in
  let D := emission_dim self in
  let prob_denses := map (prob_fn self) emissions in
  let N := einsum_tk_tkm (HMMPosterior.smoothed_probs posterior) prob_denses in
  let Sx := einsum_tkm_tn K M D N emissions in
  let SxxT := einsum_tkm_tn_tn K M D N emissions in
  let N := sum_axis0_r3 K M N in
  GMMDiagHMMSuffStats.mk (HMMPosterior.marginal_loglik posterior)
                         initial_probs trans_probs N Sx SxxT.

(** [vmap(_single_e_step)(batch_emissions)] *)
Definition e_step (self : GaussianMixtureDiagHMM) (batch_emissions : list mat)
  : list GMMDiagHMMSuffStats.t :=
  map (_single_e_step self) batch_emissions.

End EStep.

(* ================================================================= *)
(** ** The conjugate prior *)

(** Modelled from the spec: [ssm_jax.distributions.NormalInverseGamma], a
    distribution over a (variance, mean) pair given by location,
    mean-concentration, shape and scale.  Its [mode] is
    [(scale / (shape + 1), loc)].  Here the location and the scale are vectors
    over the emission dimension, the two concentrations scalars. *)
Module NormalInverseGamma.
Record t : Type := mk {
  loc : vec;
  mean_concentration : xreal;
  concentration : xreal;
  scale : vec
}.

Definition mode (d : t) : vec * vec :=
  (map (fun s => (s / (concentration d + Fin 1))%X) (scale d), loc d).
End NormalInverseGamma.

(** Posterior location of one coordinate: the average of the prior location
    and the empirical mean [sx / n], weighted by [kappa] and [n]. *)
Definition nig_posterior_loc (kappa n mu sx : xreal) : xreal :=
  ((kappa * mu + n * (sx / n)) / (kappa + n))%X.

(** Posterior scale of one coordinate: the prior scale plus half the sum of
    squared deviations from the empirical mean, plus half the squared distance
    between prior location and empirical mean weighted by
    [kappa * n / (kappa + n)]. *)
Definition nig_posterior_scale (kappa n mu beta sx sxx : xreal) : xreal :=
  let xbar := (sx / n)%X in
  (beta + Fin (1 / 2) * ((sxx - n * (xbar * xbar))
                         + (kappa * n / (kappa + n)) * ((xbar - mu) * (xbar - mu))))%X.

(** Modelled from the spec: [ssm_jax.distributions.nig_posterior_update], the
    conjugate update of a Normal-Inverse-Gamma prior by the statistics
    [(Sx, SxxT, N)] of one (state, component) pair.  With [N = 0] the prior is
    returned unchanged. *)
Definition nig_posterior_update (nig_prior : NormalInverseGamma.t)
           (stats : vec * vec * xreal) : NormalInverseGamma.t :=
  let '(Sx, SxxT, N) := stats in
  if xeq_dec N (Fin 0) then nig_prior
  else
    let kappa := NormalInverseGamma.mean_concentration nig_prior in
    NormalInverseGamma.mk
      (map2 (nig_posterior_loc kappa N) (NormalInverseGamma.loc nig_prior) Sx)
      (kappa + N)%X
      (NormalInverseGamma.concentration nig_prior + N / Fin 2)%X
      (map2 (fun mu_beta sx_sxx =>
               nig_posterior_scale kappa N (fst mu_beta) (snd mu_beta)
                                   (fst sx_sxx) (snd sx_sxx))
            (combine (NormalInverseGamma.loc nig_prior)
                     (NormalInverseGamma.scale nig_prior))
            (combine Sx SxxT)).

(* ================================================================= *)
(** ** The M-step *)

(** [posterior_mode(loc, mean_concentration, shape, scale, *stats)] *)
Definition posterior_mode (loc : vec) (mean_concentration shape : xreal) (scale : vec)
           (Sx SxxT : vec) (N : xreal) : vec * vec :=
  let nig_prior := NormalInverseGamma.mk loc mean_concentration shape scale in
  NormalInverseGamma.mode (nig_posterior_update nig_prior (Sx, SxxT, N)).

(** [vmap(posterior_mode)] over the components: seven arrays zipped along
    their leading axis. *)
Fixpoint vmap_posterior_mode (locs : mat) (mean_concentrations shapes : vec)
         (scales : mat) (Sx SxxT : mat) (N : vec) : list (vec * vec) :=
  match locs, mean_concentrations, shapes, scales, Sx, SxxT, N with
  | l :: locs', c :: mean_concentrations', a :: shapes', b :: scales',
    sx :: Sx', sxx :: SxxT', n :: N' =>
      posterior_mode l c a b sx sxx n
      :: vmap_posterior_mode locs' mean_concentrations' shapes' scales' Sx' SxxT' N'
  | _, _, _, _, _, _, _ => []
  end.

Definition _single_m_step (self : GaussianMixtureDiagHMM) (Sx SxxT : mat) (N : vec)
  : vec * mat * mat :=
  let nu_post := map2 xadd (_emission_mixture_weights_concentration self) N in
  let mixture_weights := Dirichlet_mode nu_post in
  let modes :=
    vmap_posterior_mode (_emission_prior_mean self)
                        (_emission_prior_mean_concentration self)
                        (_emission_prior_shape self)
                        (_emission_prior_scale self) Sx SxxT N in
  let cov_diag_factors := map fst modes in
  let means := map snd modes in
  (mixture_weights, cov_diag_factors, means).

(** [tree_map(partial(jnp.sum, axis=0), batch_posteriors)]: every field summed
    over the batch axis. *)
Definition sum_batch (self : GaussianMixtureDiagHMM)
           (batch_posteriors : list GMMDiagHMMSuffStats.t) : GMMDiagHMMSuffStats.t :=
  let K := num_states self in
  let M := num_components self in
  let D := emission_dim self in
  GMMDiagHMMSuffStats.mk
    (xsum (map GMMDiagHMMSuffStats.marginal_loglik batch_posteriors))
    (sum_axis0_r2 K (map GMMDiagHMMSuffStats.initial_probs batch_posteriors))
    (sum_axis0_r3 K K (map GMMDiagHMMSuffStats.trans_probs batch_posteriors))
    (sum_axis0_r3 K M (map GMMDiagHMMSuffStats.N batch_posteriors))
    (sum_axis0_r4 K M D (map GMMDiagHMMSuffStats.Sx batch_posteriors))
    (sum_axis0_r4 K M D (map GMMDiagHMMSuffStats.SxxT batch_posteriors)).

(** The update of the three emission parameters from statistics that are
    already summed: [vmap(_single_m_step)] over the states and the write-back.
    The object is mutated in place; the model returns the updated object. *)
Definition update_emissions (self : GaussianMixtureDiagHMM)
           (stats : GMMDiagHMMSuffStats.t) : GaussianMixtureDiagHMM :=
  let results :=
    map3 (_single_m_step self) (GMMDiagHMMSuffStats.Sx stats)
         (GMMDiagHMMSuffStats.SxxT stats) (GMMDiagHMMSuffStats.N stats) in
  let mixture_weights := map (fun r => fst (fst r)) results in
  let cov_diag_factors := map (fun r => snd (fst r)) results in
  let means := map snd results in
  mkHMM (initial_probs self) (transition_matrix self)
        mixture_weights means cov_diag_factors
        (_emission_mixture_weights_concentration self)
        (_emission_prior_mean self)
        (_emission_prior_mean_concentration self)
        (_emission_prior_shape self)
        (_emission_prior_scale self).

Definition _m_step_emissions (self : GaussianMixtureDiagHMM) (batch_emissions : list mat)
           (batch_posteriors : list GMMDiagHMMSuffStats.t) : GaussianMixtureDiagHMM :=
  let stats := sum_batch self batch_posteriors in
  update_emissions self stats.

(* ================================================================= *)
(** ** The constructor *)

(** An array as the constructor receives it: its shape and its entries in
    row-major order. *)
Record ndarray : Type := mk_ndarray {
  shape : list nat;
  data : list xreal
}.

(** A hyperparameter argument: a Python [float] or an array. *)
Inductive hyperparameter : Type :=
| PyFloat (x : xreal)
| PyArray (a : ndarray).

Inductive exn : Type :=
| AssertionError
| ValueError
| BaseError (code : nat).

Inductive result (A : Type) : Type :=
| Ok (a : A)
| Raise (e : exn).

Arguments Ok {A} a.
Arguments Raise {A} e.

(** Sequencing of computations that may raise. *)
Definition bind {A B} (c : result A) (k : A -> result B) : result B :=
  match c with
  | Ok a => k a
  | Raise e => Raise e
  end.

Notation "x <- c ;; k" := (bind c (fun x => k))
  (at level 61, c at next level, right associativity).

(** Equality of two shape tuples. *)
Fixpoint shape_eqb (s1 s2 : list nat) : bool :=
  match s1, s2 with
  | [], [] => true
  | n1 :: s1', n2 :: s2' => Nat.eqb n1 n2 && shape_eqb s1' s2'
  | _, _ => false
  end.

(** [c * jnp.ones(shape)] *)
Definition full (sh : list nat) (c : xreal) : ndarray :=
  mk_ndarray sh (repeat c (fold_right Nat.mul 1%nat sh)).

(** [assert cond] *)
Definition assert (cond : bool) : result unit :=
  if cond then Ok tt else Raise AssertionError.

(** The block repeated for each of the five hyperparameters: a float is
    broadcast to the expected shape, anything else is taken as it is, and the
    shape of the outcome is asserted. *)
Definition expand_hyperparameter (expected : list nat) (h : hyperparameter)
  : result ndarray :=
  let a := match h with
           | PyFloat x => full expected x
           | PyArray a => a
           end in
  _ <- assert (shape_eqb (shape a) expected) ;;
  Ok a.

(** The attributes set by the base class. *)
Record StandardHMM : Type := mk_StandardHMM {
  base_initial_probs : ndarray;
  base_transition_matrix : ndarray;
  _initial_probs_concentration : ndarray;
  _transition_matrix_concentration : ndarray
}.

(** The object under construction: the attributes as they are stored. *)
Record GaussianMixtureDiagHMM_attrs : Type := mk_attrs {
  attr_base : StandardHMM;
  attr_emission_mixture_weights : ndarray;
  attr_emission_means : ndarray;
  attr_emission_cov_diag_factors : ndarray;
  attr_emission_mixture_weights_concentration : ndarray;
  attr_emission_prior_mean : ndarray;
  attr_emission_prior_mean_concentration : ndarray;
  attr_emission_prior_shape : ndarray;
  attr_emission_prior_scale : ndarray
}.

Section Constructor.

(** [StandardHMM.__init__], defined in another module; it may raise. *)
Variable StandardHMM_init :
  ndarray -> ndarray -> hyperparameter -> hyperparameter -> result StandardHMM.

(** [num_states, num_components, emission_dim = emission_means.shape] *)
Definition unpack_shape3 (a : ndarray) : result (nat * nat * nat) :=
  match shape a with
  | [k; m; d] => Ok (k, m, d)
  | _ => Raise ValueError
  end.

Definition __init__
           (initial_probabilities transition_matrix weights emission_means
              emission_cov_diag_factors : ndarray)
           (initial_probs_concentration transition_matrix_concentration
              emission_mixture_weights_concentration emission_prior_mean
              emission_prior_mean_concentration emission_prior_shape
              emission_prior_scale : hyperparameter)
  : result GaussianMixtureDiagHMM_attrs :=
  base <- StandardHMM_init initial_probabilities transition_matrix
                           initial_probs_concentration
                           transition_matrix_concentration ;;
  dims <- unpack_shape3 emission_means ;;
  let '(num_states, num_components, emission_dim) := dims in
  _emission_mixture_weights_concentration <-
    expand_hyperparameter [num_components] emission_mixture_weights_concentration ;;
  _emission_prior_mean <-
    expand_hyperparameter [num_components; emission_dim] emission_prior_mean ;;
  _emission_prior_mean_concentration <-
    expand_hyperparameter [num_components] emission_prior_mean_concentration ;;
  _emission_prior_shape <-
    expand_hyperparameter [num_components] emission_prior_shape ;;
  _emission_prior_scale <-
    expand_hyperparameter [num_components; emission_dim] emission_prior_scale ;;
  Ok (mk_attrs base weights emission_means emission_cov_diag_factors
               _emission_mixture_weights_concentration _emission_prior_mean
               _emission_prior_mean_concentration _emission_prior_shape
               _emission_prior_scale).

End Constructor.

(** Reading the stored arrays as nested lists: [k] consecutive chunks of
    length [n]. *)
Fixpoint chunks {A} (n k : nat) (l : list A) : list (list A) :=
  match k with
  | O => []
  | S k' => firstn n l :: chunks n k' (skipn n l)
  end.

Definition to_mat (a : ndarray) : mat :=
  match shape a with
  | [r; c] => chunks c r (data a)
  | _ => []
  end.

Definition to_tens (a : ndarray) : tens :=
  match shape a with
  | [k; m; d] => map (chunks d m) (chunks (m * d) k (data a))
  | _ => []
  end.

(** The values the EM code reads from a constructed object. *)
Definition values (o : GaussianMixtureDiagHMM_attrs) : GaussianMixtureDiagHMM :=
  mkHMM (data (base_initial_probs (attr_base o)))
        (to_mat (base_transition_matrix (attr_base o)))
        (to_mat (attr_emission_mixture_weights o))
        (to_tens (attr_emission_means o))
        (to_tens (attr_emission_cov_diag_factors o))
        (data (attr_emission_mixture_weights_concentration o))
        (to_mat (attr_emission_prior_mean o))
        (data (attr_emission_prior_mean_concentration o))
        (data (attr_emission_prior_shape o))
        (to_mat (attr_emission_prior_scale o)).

(** The defaults of the prior hyperparameters in the constructor's
    signature. *)
Definition default_initial_probs_concentration : hyperparameter :=
  PyFloat (Fin (11 / 10)).
Definition default_transition_matrix_concentration : hyperparameter :=
  PyFloat (Fin (11 / 10)).
Definition default_emission_mixture_weights_concentration : hyperparameter :=
  PyFloat (Fin (11 / 10)).
Definition default_emission_prior_mean : hyperparameter := PyFloat (Fin 0).
Definition default_emission_prior_mean_concentration : hyperparameter :=
  PyFloat (Fin (1 / 10000)).
Definition default_emission_prior_shape : hyperparameter := PyFloat (Fin 1).
Definition default_emission_prior_scale : hyperparameter := PyFloat (Fin 1).

Section RandomInitialization.

Variable StandardHMM_init :
  ndarray -> ndarray -> hyperparameter -> hyperparameter -> result StandardHMM.

(** [jax.random]: keys, [jr.split(key, 4)], [jr.dirichlet(key, alpha, shape)]
    and [jr.normal(key, shape)]. *)
Variable PRNGKey : Type.
Variable jr_split4 : PRNGKey -> PRNGKey * PRNGKey * PRNGKey * PRNGKey.
Variable jr_dirichlet : PRNGKey -> ndarray -> list nat -> ndarray.
Variable jr_normal : PRNGKey -> list nat -> ndarray.

(** [random_initialization(cls, key, num_states, num_components,
    emission_dim)]: draws the five parameter arrays and calls the constructor
    with the default hyperparameters. *)
Definition random_initialization (key : PRNGKey)
           (num_states num_components emission_dim : nat)
  : result GaussianMixtureDiagHMM_attrs :=
  let '(key1, key2, key3, key4) := jr_split4 key in
  let initial_probs := jr_dirichlet key1 (full [num_states] (Fin 1)) [] in
  let transition_matrix :=
    jr_dirichlet key2 (full [num_states] (Fin 1)) [num_states] in
  let emission_mixture_weights :=
    jr_dirichlet key3 (full [num_components] (Fin 1)) [num_states] in
  let emission_means := jr_normal key4 [num_states; num_components; emission_dim] in
  let emission_cov_diag_factors :=
    full [num_states; num_components; emission_dim] (Fin 1) in
  __init__ StandardHMM_init initial_probs transition_matrix
           emission_mixture_weights emission_means emission_cov_diag_factors
           default_initial_probs_concentration
           default_transition_matrix_concentration
           default_emission_mixture_weights_concentration
           default_emission_prior_mean
           default_emission_prior_mean_concentration
           default_emission_prior_shape
           default_emission_prior_scale.

End RandomInitialization.

(* ================================================================= *)
(** ** Vocabulary of the statements *)

(** The sum of [f t] for [t] from [0] to [T - 1]. *)
Definition bigsum (T : nat) (f : nat -> xreal) : xreal :=
  xsum (map f (seq 0 T)).

(** An array of rank 2 (rank 3) has exactly the given dimensions. *)
Definition shape2 (n1 n2 : nat) (a : mat) : Prop :=
  length a = n1 /\ Forall (fun row => length row = n2) a.

Definition shape3 (n1 n2 n3 : nat) (a : tens) : Prop :=
  length a = n1 /\ Forall (shape2 n2 n3) a.

(** The three emission parameters have the shapes the class documents. *)
Definition emission_shapes (self : GaussianMixtureDiagHMM) : Prop :=
  shape3 (num_states self) (num_components self) (emission_dim self)
         (_emission_means self)
  /\ shape3 (num_states self) (num_components self) (emission_dim self)
            (_emission_cov_diag_factors self)
  /\ shape2 (num_states self) (num_components self)
            (_emission_mixture_weights self).

(** The five prior hyperparameters have the shapes the constructor asserts. *)
Definition prior_shapes (self : GaussianMixtureDiagHMM) : Prop :=
  length (_emission_mixture_weights_concentration self) = num_components self
  /\ shape2 (num_components self) (emission_dim self) (_emission_prior_mean self)
  /\ length (_emission_prior_mean_concentration self) = num_components self
  /\ length (_emission_prior_shape self) = num_components self
  /\ shape2 (num_components self) (emission_dim self) (_emission_prior_scale self).

(** A vector of finite, non-negative entries that sum to one. *)
Definition simplex (v : vec) : Prop :=
  Forall xnonneg v /\ xsum v = Fin 1.

(** Elementwise sum of two arrays of rank 2 and 3. *)
Definition madd (a b : mat) : mat := map2 (map2 xadd) a b.
Definition tadd (a b : tens) : tens := map2 madd a b.

(** The statistics record with no entries, the default of a lookup in a
    batch. *)
Definition empty_stats : GMMDiagHMMSuffStats.t :=
  GMMDiagHMMSuffStats.mk (Fin 0) [] [] [] [] [].

(** [sum(marginal_loglik)] over a batch of records. *)
Definition total_marginal_loglik (posteriors : list GMMDiagHMMSuffStats.t) : xreal :=
  xsum (map GMMDiagHMMSuffStats.marginal_loglik posteriors).

(** A prior concentration above one, where the Dirichlet mode is defined. *)
Definition above_one (c : xreal) : Prop := exists r, c = Fin r /\ 1 < r.

(** A hyperparameter argument passes the constructor's check: it is a float,
    or an array of exactly the expected shape. *)
Definition accepted (expected : list nat) (h : hyperparameter) : Prop :=
  match h with
  | PyFloat _ => True
  | PyArray a => shape a = expected
  end.

(** What the constructor stores for an accepted argument. *)
Definition stored (expected : list nat) (h : hyperparameter) : ndarray :=
  match h with
  | PyFloat x => full expected x
  | PyArray a => a
  end.

(** One reading of "the updater never sums across sequences": what it writes
    back is the closed-form update of one statistics record it was handed. *)
Definition updates_from_a_received_record (self : GaussianMixtureDiagHMM)
           (batch_emissions : list mat)
           (batch_posteriors : list GMMDiagHMMSuffStats.t) : Prop :=
  exists r, In r batch_posteriors
            /\ _m_step_emissions self batch_emissions batch_posteriors
               = update_emissions self r.

(** The real value of a finite scalar (zero for the others). *)
Definition xval (a : xreal) : R :=
  match a with
  | Fin r => r
  | _ => 0
  end.

(** The parameters of state [k] are usable: finite means, positive scales,
    non-negative mixture weights not all of which are zero. *)
Definition state_parameters_valid (self : GaussianMixtureDiagHMM) (k : nat) : Prop :=
  Forall (Forall finite) (nth k (_emission_means self) [])
  /\ Forall (Forall xpositive) (nth k (_emission_cov_diag_factors self) [])
  /\ Forall xnonneg (nth k (_emission_mixture_weights self) [])
  /\ Exists xpositive (nth k (_emission_mixture_weights self) []).

(** The model with its mixture weights replaced. *)
Definition with_mixture_weights (self : GaussianMixtureDiagHMM) (weights : mat)
  : GaussianMixtureDiagHMM :=
  mkHMM (initial_probs self) (transition_matrix self)
        weights (_emission_means self) (_emission_cov_diag_factors self)
        (_emission_mixture_weights_concentration self)
        (_emission_prior_mean self)
        (_emission_prior_mean_concentration self)
        (_emission_prior_shape self)
        (_emission_prior_scale self).

(** Every row of an array has the given length. *)
Definition rows_of_length {A : Type} (n : nat) (a : list (list A)) : Prop :=
  Forall (fun row => length row = n) a.

(* ================================================================= *)
(** ** Concrete instances *)

(** A model with one state, two components and scalar emissions. *)
Definition two_component_model : GaussianMixtureDiagHMM :=
  mkHMM [Fin 1] [[Fin 1]]
        [[Fin (1 / 2); Fin (1 / 2)]]
        [[[Fin 0]; [Fin 2]]]
        [[[Fin 1]; [Fin 1]]]
        [Fin (11 / 10); Fin (11 / 10)]
        [[Fin 0]; [Fin 0]]
        [Fin 1; Fin 1]
        [Fin 1; Fin 1]
        [[Fin 1]; [Fin 1]].

(** The same model with all the weight on the second component. *)
Definition one_sided_model : GaussianMixtureDiagHMM :=
  mkHMM [Fin 1] [[Fin 1]]
        [[Fin 0; Fin 1]]
        [[[Fin 0]; [Fin 2]]]
        [[[Fin 1]; [Fin 1]]]
        [Fin (11 / 10); Fin (11 / 10)]
        [[Fin 0]; [Fin 0]]
        [Fin 1; Fin 1]
        [Fin 1; Fin 1]
        [[Fin 1]; [Fin 1]].

Definition first_sequence : mat := [[Fin 0]; [Fin 2]; [Fin 2]].
Definition second_sequence : mat := [[Fin 0]; [Fin 0]; [Fin 2]].

(** Statistics of the two sequences when every observation is attributed to
    the nearer component. *)
Definition stats_of_first_sequence : GMMDiagHMMSuffStats.t :=
  GMMDiagHMMSuffStats.mk (Fin (-4)) [Fin 1] [[Fin 2]]
                         [[Fin 1; Fin 2]] [[[Fin 0]; [Fin 4]]] [[[Fin 0]; [Fin 8]]].

Definition stats_of_second_sequence : GMMDiagHMMSuffStats.t :=
  GMMDiagHMMSuffStats.mk (Fin (-4)) [Fin 1] [[Fin 2]]
                         [[Fin 2; Fin 1]] [[[Fin 0]; [Fin 2]]] [[[Fin 0]; [Fin 4]]].

(** Statistics of a sequence none of whose observations is attributed to the
    first component. *)
Definition stats_without_first_component : GMMDiagHMMSuffStats.t :=
  GMMDiagHMMSuffStats.mk (Fin (-4)) [Fin 1] [[Fin 2]]
                         [[Fin 0; Fin 3]] [[[Fin 0]; [Fin 6]]] [[[Fin 0]; [Fin 12]]].

(** The scenario of the spec: one state, one component, scalar emissions,
    prior location 0, mean-concentration 1, shape 1, scale 1.  The mean, the
    scale and the mixture-weight concentration are left open. *)
Definition scenario_model (mu sigma c : R) : GaussianMixtureDiagHMM :=
  mkHMM [Fin 1] [[Fin 1]]
        [[Fin 1]] [[[Fin mu]]] [[[Fin sigma]]]
        [Fin c] [[Fin 0]] [Fin 1] [Fin 1] [[Fin 1]].

Definition scenario_emissions : mat := [[Fin 1]; [Fin 1]; [Fin 1]].

(** Collaborators for a chain with a single state: the chain is in that state
    with probability one at every step, the marginal log-likelihood is the sum
    of the conditional ones, and every step is a transition to itself. *)
Definition single_state_smoother (initial_distribution : vec)
           (transition_matrix log_likelihoods : mat) : HMMPosterior.t :=
  let probs := map (fun _ : vec => [Fin 1]) log_likelihoods in
  HMMPosterior.mk (xsum (map (fun ll => vget ll 0) log_likelihoods))
                  probs probs probs.

Definition single_state_transition_probs (transition_matrix : mat)
           (posterior : HMMPosterior.t) : mat :=
  [[Fin (INR (length (HMMPosterior.smoothed_probs posterior) - 1))]].

(** The mixture log-likelihood of every emission under every state. *)
Definition mixture_conditional_logliks (self : GaussianMixtureDiagHMM)
           (emissions : mat) : mat :=
  map (fun x =>
         map3 (fun mus sigmas weights =>
                 logsumexp (component_logprobs x mus sigmas weights))
              (_emission_means self) (_emission_cov_diag_factors self)
              (_emission_mixture_weights self))
      emissions.

(** A base-class constructor that stores its arguments. *)
Definition storing_init (initial_probabilities transition_matrix : ndarray)
           (initial_probs_concentration transition_matrix_concentration
              : hyperparameter) : result StandardHMM :=
  let num_states := length (data initial_probabilities) in
  Ok (mk_StandardHMM initial_probabilities transition_matrix
        (stored [num_states] initial_probs_concentration)
        (stored [num_states; num_states] transition_matrix_concentration)).

(** The two-component model with no weight on either component. *)
Definition weightless_model : GaussianMixtureDiagHMM :=
  mkHMM [Fin 1] [[Fin 1]]
        [[Fin 0; Fin 0]]
        [[[Fin 0]; [Fin 2]]]
        [[[Fin 1]; [Fin 1]]]
        [Fin (11 / 10); Fin (11 / 10)]
        [[Fin 0]; [Fin 0]]
        [Fin 1; Fin 1]
        [Fin 1; Fin 1]
        [[Fin 1]; [Fin 1]].

(** Statistics of a sequence of length zero. *)
Definition stats_of_empty_sequence : GMMDiagHMMSuffStats.t :=
  GMMDiagHMMSuffStats.mk (Fin 0) [] [[Fin 0]]
                         [[Fin 0; Fin 0]] [[[Fin 0]; [Fin 0]]] [[[Fin 0]; [Fin 0]]].

(* ================================================================= *)
(** * Properties *)

(** ** Scalar arithmetic *)

Ltac split_signs :=
  repeat unfold Rsign;
  repeat match goal with
         | |- context [total_order_T ?a ?b] =>
             destruct (total_order_T a b) as [[?|?]|?]; simpl; unfold Rsign
         end.

(** Closes an equation between nested lists of finite scalars whose entries
    are equal as real numbers. *)
Ltac fin_lists :=
  repeat match goal with
         | |- _ :: _ = _ :: _ => apply f_equal2
         | |- [] = [] => reflexivity
         | |- Fin _ = Fin _ => apply f_equal; first [lra | field; lra | field]
         end.

Lemma xadd_comm a b : (a + b = b + a)%X.
Proof. destruct a, b; simpl; try reflexivity. f_equal; lra. Qed.

Lemma xadd_assoc a b c : (a + (b + c) = a + b + c)%X.
Proof. destruct a, b, c; simpl; try reflexivity. f_equal; lra. Qed.

Lemma xadd_0_l a : (Fin 0 + a = a)%X.
Proof. destruct a; simpl; try reflexivity. f_equal; lra. Qed.

Lemma xmul_assoc a b c : (a * (b * c) = a * b * c)%X.
Proof.
  destruct a, b, c; simpl; try reflexivity; try (f_equal; lra);
    split_signs; try reflexivity; try (exfalso; subst; nra).
Qed.

Lemma Rsign_pos x : 0 < x -> Rsign x = Gt.
Proof.
  intros H. unfold Rsign.
  destruct (total_order_T 0 x) as [[?|?]|?]; auto; lra.
Qed.

Lemma Rsign_zero : Rsign 0 = Eq.
Proof.
  unfold Rsign. destruct (total_order_T 0 0) as [[?|?]|?]; auto; lra.
Qed.

Lemma xlog_pos x : 0 < x -> xlog (Fin x) = Fin (ln x).
Proof. intros H. simpl. now rewrite Rsign_pos. Qed.

Lemma xlog_zero : xlog (Fin 0) = NInf.
Proof. simpl. now rewrite Rsign_zero. Qed.

Lemma xdiv_fin x y : y <> 0 -> (Fin x / Fin y)%X = Fin (x / y).
Proof.
  intros H. simpl. destruct (Req_dec_T y 0); [contradiction|reflexivity].
Qed.

(** ** Lists and arrays *)

Section ListFacts.
Context {A B C D : Type}.

Lemma length_map2 (f : A -> B -> C) l1 l2 :
  length (map2 f l1 l2) = Nat.min (length l1) (length l2).
Proof.
  revert l2. induction l1 as [|a l1 IH]; intros [|b l2]; simpl; auto.
Qed.

Lemma nth_map2 (f : A -> B -> C) l1 l2 i d1 d2 d :
  (i < length l1)%nat -> (i < length l2)%nat ->
  nth i (map2 f l1 l2) d = f (nth i l1 d1) (nth i l2 d2).
Proof.
  revert l2 i. induction l1 as [|a l1 IH]; intros [|b l2] [|i]; simpl;
    intros H1 H2; try lia; auto.
  apply IH; lia.
Qed.

Lemma length_map3 (f : A -> B -> C -> D) l1 l2 l3 :
  length (map3 f l1 l2 l3)
  = Nat.min (length l1) (Nat.min (length l2) (length l3)).
Proof.
  revert l2 l3. induction l1 as [|a l1 IH]; intros [|b l2] [|c l3]; simpl; auto.
Qed.

Lemma nth_map3 (f : A -> B -> C -> D) l1 l2 l3 i d1 d2 d3 d :
  (i < length l1)%nat -> (i < length l2)%nat -> (i < length l3)%nat ->
  nth i (map3 f l1 l2 l3) d = f (nth i l1 d1) (nth i l2 d2) (nth i l3 d3).
Proof.
  revert l2 l3 i.
  induction l1 as [|a l1 IH]; intros [|b l2] [|c l3] [|i]; simpl;
    intros H1 H2 H3; try lia; auto.
  apply IH; lia.
Qed.

Lemma nth_map_in (f : A -> B) l i d d' :
  (i < length l)%nat -> nth i (map f l) d = f (nth i l d').
Proof.
  intros Hi. rewrite (nth_indep _ d (f d')) by now rewrite length_map.
  apply map_nth.
Qed.

Lemma length_tabulate n (f : nat -> A) : length (tabulate n f) = n.
Proof. unfold tabulate. now rewrite length_map, length_seq. Qed.

Lemma nth_tabulate n (f : nat -> A) i d :
  (i < n)%nat -> nth i (tabulate n f) d = f i.
Proof.
  intros Hi. unfold tabulate.
  rewrite (nth_indep _ d (f 0%nat)) by now rewrite length_map, length_seq.
  now rewrite map_nth, seq_nth.
Qed.

Lemma tabulate_ext n (f g : nat -> A) :
  (forall i, (i < n)%nat -> f i = g i) -> tabulate n f = tabulate n g.
Proof.
  intros H. unfold tabulate. apply map_ext_in. intros i Hi.
  apply in_seq in Hi. apply H. lia.
Qed.

Lemma map2_tabulate (g : A -> B -> C) n f1 f2 :
  map2 g (tabulate n f1) (tabulate n f2) = tabulate n (fun i => g (f1 i) (f2 i)).
Proof.
  unfold tabulate. generalize 0%nat.
  induction n as [|n IH]; intros s; simpl; auto. now rewrite IH.
Qed.

Lemma map_as_index (f : A -> B) l d :
  map f l = map (fun i => f (nth i l d)) (seq 0 (length l)).
Proof.
  induction l as [|a l IH]; simpl; auto.
  f_equal. rewrite IH at 1. rewrite <- seq_shift, map_map. reflexivity.
Qed.

Lemma map2_as_index (f : A -> B -> C) l1 l2 d1 d2 :
  length l1 = length l2 ->
  map2 f l1 l2 = map (fun i => f (nth i l1 d1) (nth i l2 d2)) (seq 0 (length l1)).
Proof.
  revert l2. induction l1 as [|a l1 IH]; intros [|b l2]; simpl; intros H;
    try discriminate; auto.
  f_equal. rewrite (IH l2) by lia. rewrite <- seq_shift, map_map. reflexivity.
Qed.

Lemma Forall_nth_in (P : A -> Prop) l i d :
  Forall P l -> (i < length l)%nat -> P (nth i l d).
Proof. intros H Hi. rewrite Forall_forall in H. now apply H, nth_In. Qed.

Lemma Exists_nth_in (P : A -> Prop) l i d :
  (i < length l)%nat -> P (nth i l d) -> Exists P l.
Proof. intros Hi Hp. apply Exists_exists. eauto using nth_In. Qed.

End ListFacts.

(** ** Sums *)

Lemma xsum_app l1 l2 : xsum (l1 ++ l2) = (xsum l1 + xsum l2)%X.
Proof.
  induction l1 as [|a l1 IH]; simpl.
  - symmetry. apply xadd_0_l.
  - rewrite IH. apply xadd_assoc.
Qed.

Lemma xsum_map_Fin {A} (g : A -> R) l :
  xsum (map (fun a => Fin (g a)) l) = Fin (Rsum (map g l)).
Proof. induction l as [|a l IH]; simpl; auto. now rewrite IH. Qed.

Lemma xsum_Fin l : xsum (map Fin l) = Fin (Rsum l).
Proof. rewrite (xsum_map_Fin (fun r => r)). now rewrite map_id. Qed.

Lemma xsum_finite v : Forall finite v -> finite (xsum v).
Proof.
  induction 1 as [|a v [r ->] _ [s IH]]; simpl.
  - now exists 0.
  - rewrite IH. eexists. reflexivity.
Qed.

Lemma Rsum_map_div {A} (g : A -> R) s l :
  Rsum (map (fun a => g a / s) l) = Rsum (map g l) / s.
Proof.
  induction l as [|a l IH]; simpl.
  - unfold Rdiv. now rewrite Rmult_0_l.
  - rewrite IH. unfold Rdiv. ring.
Qed.

Lemma Rsum_minus_one rs :
  Rsum (map (fun r => r - 1) rs) = Rsum rs - INR (length rs).
Proof.
  induction rs as [|r rs IH].
  - simpl. lra.
  - cbn [map Rsum fold_right length]. fold (Rsum (map (fun r => r - 1) rs)).
    fold (Rsum rs). rewrite IH, S_INR. lra.
Qed.

Lemma Rsum_at_least_length rs :
  Forall (fun r => 1 < r) rs -> INR (length rs) <= Rsum rs.
Proof.
  induction 1 as [|r rs Hr _ IH].
  - simpl. lra.
  - cbn [Rsum fold_right length]. fold (Rsum rs). rewrite S_INR. lra.
Qed.

Lemma Rsum_above_length rs :
  Forall (fun r => 1 < r) rs -> rs <> [] -> INR (length rs) < Rsum rs.
Proof.
  intros H Hne. destruct H as [|r rs Hr H]; [congruence|].
  pose proof (Rsum_at_least_length rs H).
  cbn [Rsum fold_right length]. fold (Rsum rs). rewrite S_INR. lra.
Qed.

Lemma bigsum_ext T f g :
  (forall t, (t < T)%nat -> f t = g t) -> bigsum T f = bigsum T g.
Proof.
  intros H. unfold bigsum. f_equal. apply map_ext_in.
  intros t Ht. apply in_seq in Ht. apply H. lia.
Qed.

Lemma bigsum_zero T f :
  (forall t, (t < T)%nat -> f t = Fin 0) -> bigsum T f = Fin 0.
Proof.
  intros H. rewrite (bigsum_ext T f (fun _ => Fin 0)) by assumption.
  unfold bigsum. induction (seq 0 T) as [|a l IH]; simpl; auto.
  rewrite IH. simpl. f_equal. lra.
Qed.

Lemma Forall_Fin_inv (P : R -> Prop) v :
  Forall (fun a => exists r, a = Fin r /\ P r) v ->
  exists rs, v = map Fin rs /\ Forall P rs.
Proof.
  induction 1 as [|a v (r & -> & Hr) _ (rs & -> & Hrs)].
  - exists []. split; [reflexivity|constructor].
  - exists (r :: rs). split; [reflexivity|now constructor].
Qed.

Lemma map2_xadd_Fin rs ss :
  map2 xadd (map Fin rs) (map Fin ss) = map Fin (map2 Rplus rs ss).
Proof.
  revert ss. induction rs as [|r rs IH]; intros [|s ss]; simpl; auto.
  now rewrite IH.
Qed.

Lemma vget_finite v n : Forall finite v -> finite (vget v n).
Proof.
  intros H. unfold vget. destruct (Nat.lt_ge_cases n (length v)) as [Hn|Hn].
  - now apply Forall_nth_in.
  - rewrite nth_overflow by assumption. now exists 0.
Qed.

Lemma mget_finite a t n : Forall (Forall finite) a -> finite (mget a t n).
Proof.
  intros H. unfold mget. apply vget_finite.
  destruct (Nat.lt_ge_cases t (length a)) as [Ht|Ht].
  - now apply (Forall_nth_in (Forall finite)).
  - rewrite nth_overflow by assumption. constructor.
Qed.

Lemma simplex_has_positive v : simplex v -> Exists xpositive v.
Proof.
  intros [Hall Hsum]. induction Hall as [|w v (r & -> & Hr) _ IH].
  - simpl in Hsum. injection Hsum. lra.
  - destruct (Rle_lt_or_eq_dec 0 r Hr) as [Hpos|<-].
    + left. now exists r.
    + right. apply IH. cbn [xsum fold_right] in Hsum.
      now rewrite xadd_0_l in Hsum.
Qed.

Lemma simplex_singleton p : simplex [p] -> p = Fin 1.
Proof.
  intros [Hp Hs]. inversion Hp as [|? ? (r & -> & _) _]; subst.
  simpl in Hs. injection Hs as Hs. f_equal. lra.
Qed.

(** ** Shapes and reductions along the leading axis *)

Lemma shape2_nth n1 n2 a i :
  shape2 n1 n2 a -> (i < n1)%nat -> length (nth i a []) = n2.
Proof.
  intros [Hl Hr] Hi. rewrite Forall_forall in Hr. apply Hr, nth_In. lia.
Qed.

Lemma shape3_nth n1 n2 n3 a i :
  shape3 n1 n2 n3 a -> (i < n1)%nat -> shape2 n2 n3 (nth i a []).
Proof.
  intros [Hl Hr] Hi. rewrite Forall_forall in Hr. apply Hr, nth_In. lia.
Qed.

Lemma sum_axis0_r3_shape K M a : shape2 K M (sum_axis0_r3 K M a).
Proof.
  split; [apply length_tabulate|]. apply Forall_forall. intros row Hin.
  unfold sum_axis0_r3, tabulate in Hin. apply in_map_iff in Hin.
  destruct Hin as (k & <- & _). apply length_tabulate.
Qed.

Lemma sum_axis0_r4_shape K M D a : shape3 K M D (sum_axis0_r4 K M D a).
Proof.
  split; [apply length_tabulate|]. apply Forall_forall. intros row Hin.
  unfold sum_axis0_r4, tabulate in Hin. apply in_map_iff in Hin.
  destruct Hin as (k & <- & _). apply sum_axis0_r3_shape.
Qed.

Lemma sum_axis0_r3_row K M a k :
  (k < K)%nat ->
  nth k (sum_axis0_r3 K M a) []
  = tabulate M (fun m => bigsum (length a) (fun b => tget a b k m)).
Proof.
  intros Hk. unfold sum_axis0_r3. rewrite nth_tabulate by assumption.
  unfold sum_axis0_r2. apply tabulate_ext. intros m Hm.
  rewrite map_map. unfold bigsum. f_equal.
  apply (map_as_index (fun a_b => nth m (nth k a_b []) (Fin 0)) a []).
Qed.

Lemma sum_axis0_r4_row K M D (a : list tens) k :
  (k < K)%nat ->
  nth k (sum_axis0_r4 K M D a) []
  = tabulate M (fun m => tabulate D (fun n =>
      bigsum (length a) (fun b => tget (nth b a []) k m n))).
Proof.
  intros Hk. unfold sum_axis0_r4. rewrite nth_tabulate by assumption.
  unfold sum_axis0_r3, sum_axis0_r2. apply tabulate_ext. intros m Hm.
  apply tabulate_ext. intros n Hn. rewrite !map_map. unfold bigsum. f_equal.
  apply (map_as_index (fun a_b => nth n (nth m (nth k a_b []) []) (Fin 0)) a []).
Qed.

Lemma sum_axis0_r3_get K M a k m :
  (k < K)%nat -> (m < M)%nat ->
  mget (sum_axis0_r3 K M a) k m = bigsum (length a) (fun b => tget a b k m).
Proof.
  intros Hk Hm. unfold mget, vget. rewrite sum_axis0_r3_row by assumption.
  now rewrite nth_tabulate.
Qed.

Lemma sum_axis0_r2_app K a b :
  sum_axis0_r2 K (a ++ b) = map2 xadd (sum_axis0_r2 K a) (sum_axis0_r2 K b).
Proof.
  unfold sum_axis0_r2. rewrite map2_tabulate. apply tabulate_ext.
  intros k _. now rewrite map_app, xsum_app.
Qed.

Lemma sum_axis0_r3_app K M a b :
  sum_axis0_r3 K M (a ++ b) = madd (sum_axis0_r3 K M a) (sum_axis0_r3 K M b).
Proof.
  unfold sum_axis0_r3, madd. rewrite map2_tabulate. apply tabulate_ext.
  intros k _. now rewrite map_app, sum_axis0_r2_app.
Qed.

Lemma sum_axis0_r4_app K M D a b :
  sum_axis0_r4 K M D (a ++ b)
  = tadd (sum_axis0_r4 K M D a) (sum_axis0_r4 K M D b).
Proof.
  unfold sum_axis0_r4, tadd. rewrite map2_tabulate. apply tabulate_ext.
  intros k _. now rewrite map_app, sum_axis0_r3_app.
Qed.

(** ** The contractions of the E-step *)

Lemma einsum_tk_tkm_get T K M a b t k m :
  shape2 T K a -> shape3 T K M b ->
  (t < T)%nat -> (k < K)%nat -> (m < M)%nat ->
  tget (einsum_tk_tkm a b) t k m = (mget a t k * tget b t k m)%X.
Proof.
  intros Ha Hb Ht Hk Hm. unfold tget, mget, vget, einsum_tk_tkm.
  pose proof (shape2_nth _ _ _ t Ha Ht) as Hat.
  pose proof (shape3_nth _ _ _ _ t Hb Ht) as Hbt.
  pose proof (shape2_nth _ _ _ k Hbt Hk) as Hbtk.
  destruct Ha as [Ha _], Hb as [Hb _], Hbt as [Hbt _].
  rewrite (nth_map2 _ _ _ _ [] []) by lia.
  rewrite (nth_map2 _ _ _ _ (Fin 0) []) by lia.
  now rewrite (nth_map_in _ _ _ _ (Fin 0)) by lia.
Qed.

Lemma einsum_tkm_tn_get K M D a e k m n :
  length a = length e ->
  (k < K)%nat -> (m < M)%nat -> (n < D)%nat ->
  tget (einsum_tkm_tn K M D a e) k m n
  = bigsum (length e) (fun t => (tget a t k m * mget e t n)%X).
Proof.
  intros Hl Hk Hm Hn. unfold tget at 1, mget at 1, vget at 1, einsum_tkm_tn.
  rewrite !nth_tabulate by assumption.
  rewrite (map2_as_index _ a e [] []) by assumption. rewrite Hl. reflexivity.
Qed.

Lemma einsum_tkm_tn_tn_get K M D a e k m n :
  length a = length e ->
  (k < K)%nat -> (m < M)%nat -> (n < D)%nat ->
  tget (einsum_tkm_tn_tn K M D a e) k m n
  = bigsum (length e) (fun t => (tget a t k m * (mget e t n * mget e t n))%X).
Proof.
  intros Hl Hk Hm Hn. unfold tget at 1, mget at 1, vget at 1, einsum_tkm_tn_tn.
  rewrite !nth_tabulate by assumption.
  rewrite (map2_as_index _ a e [] []) by assumption. rewrite Hl.
  apply bigsum_ext. intros t _. symmetry. apply xmul_assoc.
Qed.

(** ** Normalisation in the log domain *)

Lemma exp_shifted_nonneg c l : 0 <= exp_shifted c l.
Proof. destruct l; simpl; try lra. left. apply exp_pos. Qed.

Lemma Rsum_exp_shifted_nonneg c lp : 0 <= Rsum (map (exp_shifted c) lp).
Proof.
  induction lp as [|l lp IH]; simpl; [lra|].
  pose proof (exp_shifted_nonneg c l). lra.
Qed.

Lemma Rsum_exp_shifted_pos c lp :
  Exists finite lp -> 0 < Rsum (map (exp_shifted c) lp).
Proof.
  induction 1 as [l lp [r ->]|l lp _ IH]; simpl.
  - pose proof (exp_pos (r - c)). pose proof (Rsum_exp_shifted_nonneg c lp). lra.
  - pose proof (exp_shifted_nonneg c l). lra.
Qed.

Lemma xexp_shift c l : logval l -> xexp (l - Fin c) = Fin (exp_shifted c l).
Proof. intros [->|[r ->]]; reflexivity. Qed.

Lemma xmaximum_logval lp : Forall logval lp -> logval (xmaximum lp).
Proof.
  induction 1 as [|l lp Hl _ IH]; simpl.
  - now left.
  - destruct Hl as [->|[r ->]], IH as [->|[m ->]]; simpl;
      try (now left); right; eexists; reflexivity.
Qed.

Lemma xmaximum_finite lp :
  Forall logval lp -> Exists finite lp -> finite (xmaximum lp).
Proof.
  intros Hall Hex. induction Hall as [|l lp Hl Hall IH]; simpl.
  - inversion Hex.
  - pose proof (xmaximum_logval lp Hall) as Hm.
    inversion Hex as [? ? [r Hr]|? ? Hex']; subst.
    + destruct Hm as [->|[m ->]]; simpl; eexists; reflexivity.
    + destruct (IH Hex') as [m ->].
      destruct Hl as [->|[r ->]]; simpl; eexists; reflexivity.
Qed.

(** The value of [logsumexp] on log-domain values at least one of which is
    finite: the log of the sum of the shifted exponentials, shifted back. *)
Lemma logsumexp_value lp :
  Forall logval lp -> Exists finite lp ->
  exists mx, xmaximum lp = Fin mx
             /\ logsumexp lp = Fin (ln (Rsum (map (exp_shifted mx) lp)) + mx).
Proof.
  intros Hall Hex. destruct (xmaximum_finite lp Hall Hex) as [mx Hmx].
  exists mx. split; [assumption|]. unfold logsumexp. rewrite Hmx. simpl xisfinite.
  cbv iota zeta.
  rewrite (map_ext_in _ (fun l => Fin (exp_shifted mx l))).
  - rewrite xsum_map_Fin, xlog_pos by now apply Rsum_exp_shifted_pos.
    reflexivity.
  - intros l Hl. apply xexp_shift. rewrite Forall_forall in Hall. now apply Hall.
Qed.

Lemma exp_shifted_ln s mx l :
  0 < s -> exp_shifted (ln s + mx) l = exp_shifted mx l / s.
Proof.
  intros Hs. destruct l; simpl; try (unfold Rdiv; now rewrite Rmult_0_l).
  replace (r - (ln s + mx)) with ((r - mx) + - ln s) by ring.
  rewrite exp_plus, exp_Ropp, exp_ln by assumption. reflexivity.
Qed.

(** Shifting by the log-sum-exp and exponentiating normalises. *)
Lemma softmax_sums_to_one lp :
  Forall logval lp -> Exists finite lp ->
  xsum (map (fun l => xexp (l - logsumexp lp)) lp) = Fin 1.
Proof.
  intros Hall Hex.
  destruct (logsumexp_value lp Hall Hex) as (mx & _ & ->).
  set (s := Rsum (map (exp_shifted mx) lp)).
  assert (Hs : 0 < s) by now apply Rsum_exp_shifted_pos.
  rewrite (map_ext_in _ (fun l => Fin (exp_shifted mx l / s))).
  - rewrite xsum_map_Fin, Rsum_map_div. fold s. f_equal. now field; lra.
  - intros l Hl. rewrite xexp_shift, exp_shifted_ln; auto.
    rewrite Forall_forall in Hall. now apply Hall.
Qed.

(** A log-probability of minus infinity is mapped to zero. *)
Lemma softmax_zero lp :
  Forall logval lp -> Exists finite lp ->
  xexp (NInf - logsumexp lp) = Fin 0.
Proof.
  intros Hall Hex. destruct (logsumexp_value lp Hall Hex) as (mx & _ & ->).
  reflexivity.
Qed.

Lemma softmax_singleton l : finite l -> xexp (l - logsumexp [l]) = Fin 1.
Proof.
  intros Hl.
  assert (Hall : Forall logval [l]) by (constructor; [now right|constructor]).
  assert (Hex : Exists finite [l]) by now left.
  pose proof (softmax_sums_to_one [l] Hall Hex) as Hsum.
  destruct (logsumexp_value [l] Hall Hex) as (mx & _ & E).
  rewrite E in *. destruct Hl as [r ->]. cbn in *.
  injection Hsum as Hsum. f_equal. lra.
Qed.

(** ** Log-probabilities of the components *)

Lemma MultivariateNormalDiag_log_prob_finite loc scale_diag x :
  Forall finite loc -> Forall xpositive scale_diag -> Forall finite x ->
  finite (MultivariateNormalDiag_log_prob loc scale_diag x).
Proof.
  intros Hl Hs Hx. apply xsum_finite. revert scale_diag x Hs Hx.
  induction Hl as [|mu loc [rm ->] _ IH]; intros scale_diag x Hs Hx.
  - constructor.
  - destruct Hs as [|s scale_diag (rs & -> & Hpos) Hs]; [constructor|].
    destruct Hx as [|xn x [rx ->] Hx]; [constructor|].
    cbn [map3]. constructor; [|now apply IH].
    cbv zeta. unfold xsub. cbn [xopp xadd xabs].
    rewrite xdiv_fin by lra.
    rewrite xlog_pos by (apply Rabs_pos_lt; lra).
    eexists. reflexivity.
Qed.

Lemma length_component_logprobs x mus sigmas weights M D :
  shape2 M D mus -> shape2 M D sigmas -> length weights = M ->
  length (component_logprobs x mus sigmas weights) = M.
Proof.
  intros [H1 _] [H2 _] H3. unfold component_logprobs.
  rewrite !length_map2, length_map. lia.
Qed.

Lemma component_logprobs_logval x mus sigmas weights :
  Forall (Forall finite) mus -> Forall (Forall xpositive) sigmas ->
  Forall finite x -> Forall xnonneg weights ->
  Forall logval (component_logprobs x mus sigmas weights).
Proof.
  unfold component_logprobs. intros Hm. revert sigmas weights.
  induction Hm as [|mu mus Hmu _ IH]; intros sigmas weights Hs Hx Hw.
  - constructor.
  - destruct Hs as [|s sigmas Hsig Hs]; [constructor|].
    destruct Hw as [|w weights (r & -> & Hr) Hw]; [constructor|].
    cbn [map2 map]. constructor; [|now apply IH].
    destruct (MultivariateNormalDiag_log_prob_finite mu s x Hmu Hsig Hx)
      as [d ->].
    destruct (Rle_lt_or_eq_dec 0 r Hr) as [Hpos|<-].
    + rewrite xlog_pos by assumption. right. eexists. reflexivity.
    + rewrite xlog_zero. now left.
Qed.

Lemma component_logprobs_nth x mus sigmas weights m :
  (m < length mus)%nat -> (m < length sigmas)%nat -> (m < length weights)%nat ->
  vget (component_logprobs x mus sigmas weights) m
  = (MultivariateNormalDiag_log_prob (nth m mus []) (nth m sigmas []) x
     + xlog (vget weights m))%X.
Proof.
  intros H1 H2 H3. unfold vget, component_logprobs.
  rewrite (nth_map2 _ _ _ _ (Fin 0) (Fin 0))
    by (rewrite ?length_map2, ?length_map; lia).
  rewrite (nth_map2 _ _ _ _ [] []) by lia.
  now rewrite (nth_map_in _ _ _ _ (Fin 0)) by lia.
Qed.

Lemma component_density_finite x mus sigmas m :
  Forall (Forall finite) mus -> Forall (Forall xpositive) sigmas ->
  Forall finite x -> (m < length mus)%nat -> (m < length sigmas)%nat ->
  finite (MultivariateNormalDiag_log_prob (nth m mus []) (nth m sigmas []) x).
Proof.
  intros Hm Hs Hx H1 H2.
  apply MultivariateNormalDiag_log_prob_finite;
    [apply (Forall_nth_in (Forall finite))
    |apply (Forall_nth_in (Forall xpositive))|]; assumption.
Qed.

Lemma component_logprobs_positive_weight x mus sigmas weights m :
  Forall (Forall finite) mus -> Forall (Forall xpositive) sigmas ->
  Forall finite x ->
  (m < length mus)%nat -> (m < length sigmas)%nat -> (m < length weights)%nat ->
  xpositive (vget weights m) ->
  finite (vget (component_logprobs x mus sigmas weights) m).
Proof.
  intros Hm Hs Hx H1 H2 H3 (r & Hw & Hr).
  rewrite component_logprobs_nth by assumption. rewrite Hw.
  destruct (component_density_finite x mus sigmas m Hm Hs Hx H1 H2) as [d ->].
  rewrite xlog_pos by assumption. eexists. reflexivity.
Qed.

Lemma component_logprobs_zero_weight x mus sigmas weights m :
  Forall (Forall finite) mus -> Forall (Forall xpositive) sigmas ->
  Forall finite x ->
  (m < length mus)%nat -> (m < length sigmas)%nat -> (m < length weights)%nat ->
  vget weights m = Fin 0 ->
  vget (component_logprobs x mus sigmas weights) m = NInf.
Proof.
  intros Hm Hs Hx H1 H2 H3 Hw.
  rewrite component_logprobs_nth by assumption. rewrite Hw.
  destruct (component_density_finite x mus sigmas m Hm Hs Hx H1 H2) as [d ->].
  now rewrite xlog_zero.
Qed.

Lemma component_logprobs_has_finite x mus sigmas weights M D :
  Forall (Forall finite) mus -> Forall (Forall xpositive) sigmas ->
  Forall finite x ->
  shape2 M D mus -> shape2 M D sigmas -> length weights = M ->
  Exists xpositive weights ->
  Exists finite (component_logprobs x mus sigmas weights).
Proof.
  intros Hm Hs Hx [H1 _] [H2 _] H3 Hex.
  apply Exists_exists in Hex. destruct Hex as (w & Hin & Hw).
  destruct (In_nth _ _ (Fin 0) Hin) as (m & Hlt & Hnth).
  apply (Exists_nth_in _ _ m (Fin 0)).
  - unfold component_logprobs. rewrite !length_map2, length_map. lia.
  - apply component_logprobs_positive_weight; auto; try lia.
    unfold vget. now rewrite Hnth.
Qed.

(** ** The array of responsibilities *)

(** The row of state [k] is the row of log-probabilities, shifted by its
    log-sum-exp and exponentiated. *)
Lemma prob_fn_row self x k :
  emission_shapes self -> (k < num_states self)%nat ->
  nth k (prob_fn self x) []
  = let lp := component_logprobs x (nth k (_emission_means self) [])
                                 (nth k (_emission_cov_diag_factors self) [])
                                 (nth k (_emission_mixture_weights self) []) in
    map (fun l => xexp (l - logsumexp lp)) lp.
Proof.
  intros (Hm & Hc & Hw) Hk. unfold prob_fn. cbv zeta.
  destruct Hm as [Hm _], Hc as [Hc _], Hw as [Hw _].
  rewrite (nth_map_in _ _ _ _ []) by (rewrite length_map, length_map3; lia).
  rewrite (nth_map_in _ _ _ _ []) by (rewrite length_map3; lia).
  rewrite (nth_map3 _ _ _ _ _ [] [] []) by lia.
  unfold log_normalize. cbv zeta. rewrite map_map. reflexivity.
Qed.

Lemma prob_fn_shape self x :
  emission_shapes self ->
  shape2 (num_states self) (num_components self) (prob_fn self x).
Proof.
  intros Hs. pose proof Hs as (Hm & Hc & Hw). split.
  - unfold prob_fn. cbv zeta. rewrite !length_map, length_map3.
    destruct Hm as [Hm _], Hc as [Hc _], Hw as [Hw _]. lia.
  - apply Forall_forall. intros row Hin.
    destruct (In_nth _ _ [] Hin) as (k & Hk & <-).
    assert (Hk' : (k < num_states self)%nat).
    { revert Hk. unfold prob_fn. cbv zeta. rewrite !length_map, length_map3.
      destruct Hm as [Hm _]. lia. }
    rewrite prob_fn_row by assumption. cbv zeta. rewrite length_map.
    eapply length_component_logprobs.
    + eapply shape3_nth; eauto.
    + eapply shape3_nth; eauto.
    + eapply shape2_nth; eauto.
Qed.

Lemma responsibility_entry self emissions t k m :
  emission_shapes self -> (t < length emissions)%nat -> (k < num_states self)%nat ->
  tget (map (prob_fn self) emissions) t k m
  = let lp := component_logprobs (nth t emissions [])
                                 (nth k (_emission_means self) [])
                                 (nth k (_emission_cov_diag_factors self) [])
                                 (nth k (_emission_mixture_weights self) []) in
    vget (map (fun l => xexp (l - logsumexp lp)) lp) m.
Proof.
  intros Hs Ht Hk. unfold tget, mget.
  rewrite (nth_map_in _ _ _ _ []) by assumption.
  now rewrite prob_fn_row by assumption.
Qed.

(* ================================================================= *)
(** * The E-step *)

Section EStepProperties.

Variable hmm_smoother : vec -> mat -> mat -> HMMPosterior.t.
Variable compute_transition_probs : mat -> HMMPosterior.t -> mat.
Variable _compute_conditional_logliks : GaussianMixtureDiagHMM -> mat -> mat.

Local Abbreviation smoothed self emissions :=
  (HMMPosterior.smoothed_probs
     (hmm_smoother (_compute_initial_probs self) (_compute_transition_matrices self)
                   (_compute_conditional_logliks self emissions))).

Local Abbreviation single :=
  (_single_e_step hmm_smoother compute_transition_probs
                  _compute_conditional_logliks).

Local Abbreviation estep :=
  (e_step hmm_smoother compute_transition_probs _compute_conditional_logliks).

(** The entries of the three accumulated statistics, in terms of the smoothed
    probabilities and the array of responsibilities. *)
Lemma single_e_step_entries self emissions k m :
  let gamma := smoothed self emissions in
  let resp := map (prob_fn self) emissions in
  let stats := single self emissions in
  let T := length emissions in
  let joint t := (mget gamma t k * tget resp t k m)%X in
  emission_shapes self -> shape2 T (num_states self) gamma ->
  (k < num_states self)%nat -> (m < num_components self)%nat ->
  (forall t, (t < T)%nat -> tget (einsum_tk_tkm gamma resp) t k m = joint t)
  /\ mget (GMMDiagHMMSuffStats.N stats) k m = bigsum T joint
  /\ forall n, (n < emission_dim self)%nat ->
       tget (GMMDiagHMMSuffStats.Sx stats) k m n
       = bigsum T (fun t => (joint t * mget emissions t n)%X)
       /\ tget (GMMDiagHMMSuffStats.SxxT stats) k m n
          = bigsum T (fun t => (joint t * (mget emissions t n * mget emissions t n))%X).
Proof.
  intros gamma resp stats T joint Hs Hg Hk Hm.
  assert (Hresp : shape3 T (num_states self) (num_components self) resp).
  { split.
    - unfold resp. now rewrite length_map.
    - apply Forall_forall. intros a Ha. apply in_map_iff in Ha.
      destruct Ha as (x & <- & _). now apply prob_fn_shape. }
  assert (Hjoint : forall t, (t < T)%nat ->
            tget (einsum_tk_tkm gamma resp) t k m = joint t).
  { intros t Ht.
    now rewrite (einsum_tk_tkm_get T (num_states self) (num_components self)). }
  assert (Hlen : length (einsum_tk_tkm gamma resp) = T).
  { unfold einsum_tk_tkm. rewrite length_map2.
    destruct Hg as [Hg _], Hresp as [Hr _]. lia. }
  split; [exact Hjoint|]. split.
  - change (GMMDiagHMMSuffStats.N stats)
      with (sum_axis0_r3 (num_states self) (num_components self)
                         (einsum_tk_tkm gamma resp)).
    rewrite sum_axis0_r3_get by assumption. rewrite Hlen.
    now apply bigsum_ext.
  - intros n Hn.
    change (GMMDiagHMMSuffStats.Sx stats)
      with (einsum_tkm_tn (num_states self) (num_components self)
                          (emission_dim self) (einsum_tk_tkm gamma resp) emissions).
    change (GMMDiagHMMSuffStats.SxxT stats)
      with (einsum_tkm_tn_tn (num_states self) (num_components self)
                             (emission_dim self) (einsum_tk_tkm gamma resp)
                             emissions).
    split.
    + rewrite einsum_tkm_tn_get by assumption.
      apply bigsum_ext. intros t Ht. now rewrite Hjoint.
    + rewrite einsum_tkm_tn_tn_get by assumption.
      apply bigsum_ext. intros t Ht. now rewrite Hjoint.
Qed.



(** C4.  The E-step maps each sequence of a batch to its own record, in
    order, so the records of a concatenated batch are those of the two
    batches; and the sums over the batch of [N], [Sx] and [SxxT] for the
    concatenation are the elementwise sums of those of the two batches. *)
Theorem e_step_batch_additive (self : GaussianMixtureDiagHMM) (A B : list mat) :
  let stats batch := sum_batch self (estep self batch) in
  length (estep self A) = length A
  /\ (forall i, (i < length A)%nat ->
        nth i (estep self (A ++ B)) empty_stats = single self (nth i A []))
  /\ (forall j, (j < length B)%nat ->
        nth (length A + j) (estep self (A ++ B)) empty_stats
        = single self (nth j B []))
  /\ estep self (A ++ B) = estep self A ++ estep self B
  /\ GMMDiagHMMSuffStats.N (stats (A ++ B))
     = madd (GMMDiagHMMSuffStats.N (stats A)) (GMMDiagHMMSuffStats.N (stats B))
  /\ GMMDiagHMMSuffStats.Sx (stats (A ++ B))
     = tadd (GMMDiagHMMSuffStats.Sx (stats A)) (GMMDiagHMMSuffStats.Sx (stats B))
  /\ GMMDiagHMMSuffStats.SxxT (stats (A ++ B))
     = tadd (GMMDiagHMMSuffStats.SxxT (stats A))
            (GMMDiagHMMSuffStats.SxxT (stats B)).
Proof.
  intros stats.
  assert (Happ : estep self (A ++ B) = estep self A ++ estep self B)
    by apply map_app.
  repeat split.
  - apply length_map.
  - intros i Hi. unfold e_step.
    rewrite (nth_map_in _ _ _ _ []) by (rewrite length_app; lia).
    now rewrite app_nth1.
  - intros j Hj. unfold e_step.
    rewrite (nth_map_in _ _ _ _ []) by (rewrite length_app; lia).
    rewrite app_nth2 by lia.
    now replace (length A + j - length A)%nat with j by lia.
  - exact Happ.
  - unfold stats, sum_batch. simpl. rewrite Happ, map_app.
    apply sum_axis0_r3_app.
  - unfold stats, sum_batch. simpl. rewrite Happ, map_app.
    apply sum_axis0_r4_app.
  - unfold stats, sum_batch. simpl. rewrite Happ, map_app.
    apply sum_axis0_r4_app.
Qed.

End EStepProperties.


(** *** Instances *)

(** Closed side conditions on the concrete instances: shapes, finiteness and
    signs of explicit arrays. *)
Create HintDb instances.
#[local] Hint Unfold two_component_model one_sided_model first_sequence
  second_sequence scenario_model scenario_emissions : instances.

Ltac closed_fact :=
  autounfold with instances; cbn;
  repeat match goal with
         | |- _ /\ _ => split
         | |- Forall _ [] => constructor
         | |- Forall _ (_ :: _) => constructor
         | |- shape2 _ _ _ => unfold shape2; cbn
         | |- shape3 _ _ _ _ => unfold shape3; cbn
         | |- finite (Fin _) => eexists; reflexivity
         | |- xnonneg (Fin _) => eexists; split; [reflexivity|lra]
         | |- xpositive (Fin _) => eexists; split; [reflexivity|lra]
         | |- above_one (Fin _) => eexists; split; [reflexivity|lra]
         | |- (_ < _)%nat => lia
         | |- @eq nat _ _ => reflexivity
         | |- Fin _ = Fin _ => apply f_equal; lra
         end.

Lemma two_component_model_shapes : emission_shapes two_component_model.
Proof. unfold emission_shapes. closed_fact. Qed.

Lemma one_sided_model_shapes : emission_shapes one_sided_model.
Proof. unfold emission_shapes. closed_fact. Qed.

Lemma single_state_smoother_rows self emissions :
  let gamma :=
    HMMPosterior.smoothed_probs
      (single_state_smoother (_compute_initial_probs self)
                             (_compute_transition_matrices self)
                             (mixture_conditional_logliks self emissions)) in
  shape2 (length emissions) 1 gamma
  /\ Forall (Forall finite) gamma
  /\ Forall simplex gamma.
Proof.
  cbn. unfold mixture_conditional_logliks. rewrite map_map.
  split; [split|split].
  - now rewrite length_map.
  - apply Forall_forall. intros row Hin. apply in_map_iff in Hin.
    now destruct Hin as (x & <- & _).
  - apply Forall_forall. intros row Hin. apply in_map_iff in Hin.
    destruct Hin as (x & <- & _). closed_fact.
  - apply Forall_forall. intros row Hin. apply in_map_iff in Hin.
    destruct Hin as (x & <- & _). unfold simplex. closed_fact.
Qed.




(* ================================================================= *)
(** * The M-step *)

(** ** Mixture weights *)

(** Where every concentration exceeds one the mode is the closed form. *)
Lemma Dirichlet_mode_above_one c :
  Forall above_one c ->
  Dirichlet_mode c
  = map (fun ci => ((ci - Fin 1) / (xsum c - Fin (INR (length c))))%X) c.
Proof.
  intros H. unfold Dirichlet_mode. cbv zeta.
  replace (forallb (xltb (Fin 1)) c) with true; [reflexivity|].
  symmetry. apply forallb_forall. intros x Hx.
  rewrite Forall_forall in H. destruct (H x Hx) as (r & -> & Hr).
  simpl. destruct (Rlt_dec 1 r); [reflexivity|contradiction].
Qed.

Lemma above_one_Fin rs : Forall (fun r => 1 < r) rs -> Forall above_one (map Fin rs).
Proof.
  intros H. apply Forall_forall. intros x Hx. apply in_map_iff in Hx.
  destruct Hx as (r & <- & Hr). rewrite Forall_forall in H.
  exists r. split; [reflexivity|now apply H].
Qed.

(** The Dirichlet mode of finite concentrations above one, over the reals. *)
Lemma Dirichlet_mode_Fin rs :
  Forall (fun r => 1 < r) rs -> rs <> [] ->
  Dirichlet_mode (map Fin rs)
  = map Fin (map (fun r => (r - 1) / (Rsum rs - INR (length rs))) rs).
Proof.
  intros H Hne. pose proof (Rsum_above_length rs H Hne) as Hlt.
  rewrite Dirichlet_mode_above_one by now apply above_one_Fin.
  rewrite xsum_Fin, length_map, !map_map.
  apply map_ext. intros r. unfold xsub. cbn [xopp xadd].
  rewrite xdiv_fin by lra. reflexivity.
Qed.

Lemma Dirichlet_mode_simplex rs :
  Forall (fun r => 1 < r) rs -> rs <> [] -> simplex (Dirichlet_mode (map Fin rs)).
Proof.
  intros H Hne. pose proof (Rsum_above_length rs H Hne) as Hlt.
  rewrite Dirichlet_mode_Fin by assumption. split.
  - rewrite map_map. apply Forall_forall. intros w Hw.
    apply in_map_iff in Hw. destruct Hw as (r & <- & Hr).
    rewrite Forall_forall in H. specialize (H r Hr).
    eexists. split; [reflexivity|].
    apply Rmult_le_pos; [lra|]. left. apply Rinv_0_lt_compat. lra.
  - rewrite xsum_Fin. f_equal.
    rewrite (Rsum_map_div (fun r => r - 1)), Rsum_minus_one.
    field. lra.
Qed.



(** ** Means and variances *)

Lemma posterior_mode_zero_count loc mean_concentration shape scale Sx SxxT :
  posterior_mode loc mean_concentration shape scale Sx SxxT (Fin 0)
  = (map (fun s => (s / (shape + Fin 1))%X) scale, loc).
Proof.
  unfold posterior_mode, nig_posterior_update.
  destruct (xeq_dec (Fin 0) (Fin 0)) as [_|H]; [reflexivity|congruence].
Qed.

Lemma length_vmap_posterior_mode locs kappas shapes scales Sx SxxT N n :
  length locs = n -> length kappas = n -> length shapes = n ->
  length scales = n -> length Sx = n -> length SxxT = n -> length N = n ->
  length (vmap_posterior_mode locs kappas shapes scales Sx SxxT N) = n.
Proof.
  revert kappas shapes scales Sx SxxT N n.
  induction locs as [|l locs IH];
    intros [|c kappas] [|a shapes] [|b scales] [|sx Sx] [|sxx SxxT] [|w N] n;
    simpl; intros; subst; try discriminate; auto;
    f_equal; apply IH; lia.
Qed.

Lemma nth_vmap_posterior_mode locs kappas shapes scales Sx SxxT N m d :
  (m < length locs)%nat -> (m < length kappas)%nat -> (m < length shapes)%nat ->
  (m < length scales)%nat -> (m < length Sx)%nat -> (m < length SxxT)%nat ->
  (m < length N)%nat ->
  nth m (vmap_posterior_mode locs kappas shapes scales Sx SxxT N) d
  = posterior_mode (nth m locs []) (nth m kappas (Fin 0)) (nth m shapes (Fin 0))
                   (nth m scales []) (nth m Sx []) (nth m SxxT [])
                   (nth m N (Fin 0)).
Proof.
  revert kappas shapes scales Sx SxxT N m.
  induction locs as [|l locs IH];
    intros [|c kappas] [|a shapes] [|b scales] [|sx Sx] [|sxx SxxT] [|w N] [|m];
    simpl; intros; try lia; auto.
  apply IH; lia.
Qed.

(** The result of the update for one state. *)
Lemma update_emissions_state self stats k :
  shape2 (num_states self) (num_components self) (GMMDiagHMMSuffStats.N stats) ->
  shape3 (num_states self) (num_components self) (emission_dim self)
         (GMMDiagHMMSuffStats.Sx stats) ->
  shape3 (num_states self) (num_components self) (emission_dim self)
         (GMMDiagHMMSuffStats.SxxT stats) ->
  (k < num_states self)%nat ->
  let self' := update_emissions self stats in
  (nth k (_emission_mixture_weights self') [],
   nth k (_emission_cov_diag_factors self') [],
   nth k (_emission_means self') [])
  = _single_m_step self (nth k (GMMDiagHMMSuffStats.Sx stats) [])
                   (nth k (GMMDiagHMMSuffStats.SxxT stats) [])
                   (nth k (GMMDiagHMMSuffStats.N stats) []).
Proof.
  intros [HN _] [HS _] [HSS _] Hk self'.
  unfold self', update_emissions. cbv zeta.
  cbn [_emission_mixture_weights _emission_cov_diag_factors _emission_means].
  rewrite !(nth_map_in _ _ _ _ ([], [], [])) by (rewrite length_map3; lia).
  rewrite (nth_map3 _ _ _ _ _ [] [] []) by lia.
  now destruct (_single_m_step _ _ _ _) as [[? ?] ?].
Qed.


Lemma two_component_model_prior_shapes : prior_shapes two_component_model.
Proof. unfold prior_shapes. closed_fact. Qed.


(** ** Reduction over the batch *)



Lemma weights_from_both_sequences :
  _emission_mixture_weights
    (_m_step_emissions two_component_model [first_sequence; second_sequence]
       [stats_of_first_sequence; stats_of_second_sequence])
  = [[Fin (1 / 2); Fin (1 / 2)]].
Proof.
  cbn -[xdiv Dirichlet_mode].
  rewrite Dirichlet_mode_above_one by closed_fact.
  cbn -[xdiv]. rewrite !xdiv_fin by lra. fin_lists.
Qed.

Lemma weights_from_first_sequence :
  _emission_mixture_weights
    (update_emissions two_component_model stats_of_first_sequence)
  = [[Fin (11 / 32); Fin (21 / 32)]].
Proof.
  cbn -[xdiv Dirichlet_mode].
  rewrite Dirichlet_mode_above_one by closed_fact.
  cbn -[xdiv]. rewrite !xdiv_fin by lra. fin_lists.
Qed.

Lemma weights_from_second_sequence :
  _emission_mixture_weights
    (update_emissions two_component_model stats_of_second_sequence)
  = [[Fin (21 / 32); Fin (11 / 32)]].
Proof.
  cbn -[xdiv Dirichlet_mode].
  rewrite Dirichlet_mode_above_one by closed_fact.
  cbn -[xdiv]. rewrite !xdiv_fin by lra. fin_lists.
Qed.


(* ================================================================= *)
(** * The scenario of the spec *)

Section Scenario.

Variable hmm_smoother : vec -> mat -> mat -> HMMPosterior.t.
Variable compute_transition_probs : mat -> HMMPosterior.t -> mat.
Variable _compute_conditional_logliks : GaussianMixtureDiagHMM -> mat -> mat.

Local Abbreviation smoothed self emissions :=
  (HMMPosterior.smoothed_probs
     (hmm_smoother (_compute_initial_probs self) (_compute_transition_matrices self)
                   (_compute_conditional_logliks self emissions))).

Local Abbreviation estep :=
  (e_step hmm_smoother compute_transition_probs _compute_conditional_logliks).

Lemma scenario_responsibilities mu sigma c x :
  0 < sigma -> prob_fn (scenario_model mu sigma c) [Fin x] = [[Fin 1]].
Proof.
  intros Hs. unfold prob_fn, scenario_model. cbv zeta.
  cbn [_emission_means _emission_cov_diag_factors _emission_mixture_weights
       map3 map]. unfold log_normalize, component_logprobs. cbv zeta.
  cbn [map2 map].
  rewrite softmax_singleton; [reflexivity|].
  assert (Hd : finite (MultivariateNormalDiag_log_prob [Fin mu] [Fin sigma] [Fin x])).
  { apply MultivariateNormalDiag_log_prob_finite; repeat constructor.
    - now exists mu.
    - now exists sigma.
    - now exists x. }
  destruct Hd as [d ->]. rewrite xlog_pos by lra. eexists. reflexivity.
Qed.

(** The statistics of the scenario, for a smoother that returns a distribution
    over the single state at each of the three steps. *)
Lemma scenario_statistics (mu sigma c : R) :
  let self := scenario_model mu sigma c in
  let gamma := smoothed self scenario_emissions in
  let posteriors := estep self [scenario_emissions] in
  0 < sigma ->
  shape2 3 1 gamma -> Forall simplex gamma ->
  map GMMDiagHMMSuffStats.N posteriors = [ [[Fin 3]] ]
  /\ map GMMDiagHMMSuffStats.Sx posteriors = [ [[[Fin 3]]] ]
  /\ map GMMDiagHMMSuffStats.SxxT posteriors = [ [[[Fin 3]]] ].
Proof.
  intros self gamma posteriors Hsigma [Hlen Hrows] Hsimplex.
  assert (Hgamma : gamma = [[Fin 1]; [Fin 1]; [Fin 1]]).
  { destruct gamma as [|r1 [|r2 [|r3 [|? ?]]]]; try discriminate.
    repeat match goal with
           | H : Forall _ (_ :: _) |- _ => inversion H; clear H; subst
           end.
    repeat match goal with
           | H : length ?r = 1%nat |- _ =>
               destruct r as [|? [|? ?]]; try discriminate; clear H
           end.
    repeat match goal with
           | H : simplex [_] |- _ => apply simplex_singleton in H; subst
           end.
    reflexivity. }
  unfold posteriors, e_step, _single_e_step. cbv zeta.
  cbn [map GMMDiagHMMSuffStats.N GMMDiagHMMSuffStats.Sx
       GMMDiagHMMSuffStats.SxxT].
  fold gamma. rewrite Hgamma. unfold scenario_emissions.
  cbn [map]. unfold self. rewrite !scenario_responsibilities by assumption.
  cbn. repeat split; fin_lists.
Qed.


End Scenario.


(** ** One cycle and the marginal log-likelihood *)

Lemma logsumexp_singleton r : logsumexp [Fin r] = Fin r.
Proof.
  unfold logsumexp. cbn -[xlog].
  replace (exp (r + - r) + 0) with 1
    by (replace (r + - r) with 0 by lra; rewrite exp_0; lra).
  rewrite xlog_pos by lra. rewrite ln_1. cbn. f_equal. lra.
Qed.

(** The conditional log-likelihood of a scalar emission under a model with
    one state and one component. *)
Lemma single_component_loglik mu sigma w c x :
  0 < sigma -> 0 < w ->
  mixture_conditional_logliks
    (mkHMM [Fin 1] [[Fin 1]] [[Fin w]] [[[Fin mu]]] [[[Fin sigma]]]
           c [[Fin 0]] [Fin 1] [Fin 1] [[Fin 1]]) [[Fin x]]
  = [[Fin (- (1 / 2) * ((x - mu) / sigma * ((x - mu) / sigma))
           - ln (2 * PI) / 2 - ln sigma + ln w)]].
Proof.
  intros Hs Hw. unfold mixture_conditional_logliks, component_logprobs,
    MultivariateNormalDiag_log_prob.
  cbn -[xdiv xlog logsumexp].
  rewrite xdiv_fin by lra. rewrite !xlog_pos by (try apply Rabs_pos_lt; lra).
  cbn -[logsumexp]. rewrite logsumexp_singleton.
  rewrite Rabs_pos_eq by lra. do 3 f_equal. lra.
Qed.

Lemma scenario_logliks mu sigma c xs :
  0 < sigma ->
  mixture_conditional_logliks (scenario_model mu sigma c) (map (fun x => [Fin x]) xs)
  = map (fun x => [Fin (- (1 / 2) * ((x - mu) / sigma * ((x - mu) / sigma))
                        - ln (2 * PI) / 2 - ln sigma + ln 1)]) xs.
Proof.
  intros Hs. unfold mixture_conditional_logliks. rewrite map_map.
  apply map_ext. intros x.
  exact (f_equal (fun l => nth 0 l [])
                 (single_component_loglik mu sigma 1 [Fin c] x Hs Rlt_0_1)).
Qed.

(** With the collaborators of a single-state chain, the total marginal
    log-likelihood of the scenario's batch is three times the Gaussian
    log-density of the observation. *)
Lemma scenario_total_loglik mu sigma c :
  0 < sigma ->
  total_marginal_loglik
    (e_step single_state_smoother single_state_transition_probs
            mixture_conditional_logliks (scenario_model mu sigma c)
            [scenario_emissions])
  = Fin (3 * (- (1 / 2) * ((1 - mu) / sigma * ((1 - mu) / sigma))
              - ln (2 * PI) / 2 - ln sigma)).
Proof.
  intros Hs. unfold total_marginal_loglik, e_step, _single_e_step. cbv zeta.
  cbn [map GMMDiagHMMSuffStats.marginal_loglik].
  unfold single_state_smoother. cbv zeta. cbn [HMMPosterior.marginal_loglik].
  change scenario_emissions with (map (fun x => [Fin x]) [1; 1; 1]).
  rewrite scenario_logliks by assumption.
  cbn. rewrite ln_1. f_equal. lra.
Qed.

(** The M-step on the statistics of the scenario: whatever the current mean
    and scale, the mean becomes [3/4] and the variance [11/28]. *)
Lemma scenario_update mu sigma c batch_emissions posteriors :
  1 < c ->
  map GMMDiagHMMSuffStats.N posteriors = [ [[Fin 3]] ] ->
  map GMMDiagHMMSuffStats.Sx posteriors = [ [[[Fin 3]]] ] ->
  map GMMDiagHMMSuffStats.SxxT posteriors = [ [[[Fin 3]]] ] ->
  _m_step_emissions (scenario_model mu sigma c) batch_emissions posteriors
  = scenario_model (3 / (1 + 3)) (11 / 28) c.
Proof.
  intros Hc HN HSx HSxxT.
  unfold _m_step_emissions, update_emissions, sum_batch. cbv zeta.
  rewrite HN, HSx, HSxxT.
  cbn -[xdiv xeq_dec Dirichlet_mode].
  rewrite Dirichlet_mode_above_one by closed_fact.
  destruct (xeq_dec _ _) as [E|_]; [injection E; lra|].
  unfold scenario_model.
  cbn -[xdiv]. unfold nig_posterior_loc, nig_posterior_scale. cbv zeta.
  rewrite !xdiv_fin by lra.
  cbn -[xdiv]. rewrite !xdiv_fin by lra.
  cbn -[xdiv]. rewrite ?xdiv_fin by lra.
  f_equal; fin_lists.
Qed.

(** Started at mean 1 and scale 11/28, one cycle of E-step and M-step moves
    the mean to 3/4, towards the prior location, and leaves the scale where it
    is: the total marginal log-likelihood of the batch strictly decreases. *)
Lemma marginal_loglik_can_decrease :
  let estep := e_step single_state_smoother single_state_transition_probs
                      mixture_conditional_logliks in
  let batch := [scenario_emissions] in
  let self := scenario_model 1 (11 / 28) (11 / 10) in
  let self' := _m_step_emissions self batch (estep self batch) in
  exists l l',
    total_marginal_loglik (estep self batch) = Fin l
    /\ total_marginal_loglik (estep self' batch) = Fin l'
    /\ l' < l.
Proof.
  intros estep batch self self'.
  assert (E : self' = scenario_model (3 / (1 + 3)) (11 / 28) (11 / 10)).
  { destruct (single_state_smoother_rows self scenario_emissions)
      as (Hshape & _ & Hsimplex).
    destruct (scenario_statistics
                single_state_smoother single_state_transition_probs
                mixture_conditional_logliks 1 (11 / 28) (11 / 10))
      as (HN & HSx & HSxxT); try assumption; try lra.
    apply scenario_update; try assumption. lra. }
  do 2 eexists. split; [|split].
  - unfold estep, batch, self. apply scenario_total_loglik. lra.
  - rewrite E. unfold estep, batch. apply scenario_total_loglik. lra.
  - assert (H : 0 < (1 - 3 / (1 + 3)) / (11 / 28) * ((1 - 3 / (1 + 3)) / (11 / 28))).
    { apply Rmult_lt_0_compat; lra. }
    replace ((1 - 1) / (11 / 28) * ((1 - 1) / (11 / 28))) with 0 by lra.
    lra.
Qed.

(* ================================================================= *)
(** * The constructor *)

Lemma shape_eqb_eq s1 s2 : shape_eqb s1 s2 = true <-> s1 = s2.
Proof.
  revert s2. induction s1 as [|n s1 IH]; intros [|m s2]; simpl;
    try (split; [discriminate|congruence]); try tauto.
  rewrite andb_true_iff, Nat.eqb_eq, IH. split.
  - intros [-> ->]. reflexivity.
  - intros E. injection E. auto.
Qed.

Lemma accepted_dec expected h : {accepted expected h} + {~ accepted expected h}.
Proof.
  destruct h as [x|a]; simpl.
  - left. exact I.
  - apply (list_eq_dec Nat.eq_dec).
Qed.

Lemma expand_accepted expected h :
  accepted expected h -> expand_hyperparameter expected h = Ok (stored expected h).
Proof.
  intros H. unfold expand_hyperparameter, stored.
  destruct h as [x|a]; simpl in *.
  - replace (shape_eqb expected expected) with true
      by (symmetry; now apply shape_eqb_eq).
    reflexivity.
  - replace (shape_eqb (shape a) expected) with true
      by (symmetry; now apply shape_eqb_eq).
    reflexivity.
Qed.

Lemma expand_rejected expected h :
  ~ accepted expected h -> expand_hyperparameter expected h = Raise AssertionError.
Proof.
  intros H. destruct h as [x|a]; simpl in *; [tauto|].
  unfold expand_hyperparameter.
  destruct (shape_eqb (shape a) expected) eqn:E; [|reflexivity].
  apply shape_eqb_eq in E. contradiction.
Qed.

Section ConstructorProperties.

Variable StandardHMM_init :
  ndarray -> ndarray -> hyperparameter -> hyperparameter -> result StandardHMM.

(** C9.  Once the base class is initialised and the dimensions are read off
    the rank-3 array of means: if each of the five prior hyperparameters is a
    float or an array of exactly the expected shape ([(num_components,)] for
    the mixture-weight concentration, the mean-concentration and the shape,
    [(num_components, emission_dim)] for the prior mean and the scale), the
    constructor returns the object, in which a float is stored broadcast to
    the expected shape and an array as it is; otherwise it raises an assertion
    error and returns no object.  A float always passes the check. *)
Theorem constructor_checks_shapes
        (initial_probabilities transition_matrix weights emission_means
           emission_cov_diag_factors : ndarray)
        (initial_probs_concentration transition_matrix_concentration
           emission_mixture_weights_concentration emission_prior_mean
           emission_prior_mean_concentration emission_prior_shape
           emission_prior_scale : hyperparameter)
        (base : StandardHMM) (num_states num_components emission_dim : nat) :
  let outcome :=
    __init__ StandardHMM_init initial_probabilities transition_matrix weights
             emission_means emission_cov_diag_factors
             initial_probs_concentration transition_matrix_concentration
             emission_mixture_weights_concentration emission_prior_mean
             emission_prior_mean_concentration emission_prior_shape
             emission_prior_scale in
  let all_accepted :=
    accepted [num_components] emission_mixture_weights_concentration
    /\ accepted [num_components; emission_dim] emission_prior_mean
    /\ accepted [num_components] emission_prior_mean_concentration
    /\ accepted [num_components] emission_prior_shape
    /\ accepted [num_components; emission_dim] emission_prior_scale in
  StandardHMM_init initial_probabilities transition_matrix
                   initial_probs_concentration transition_matrix_concentration
  = Ok base ->
  shape emission_means = [num_states; num_components; emission_dim] ->
  (all_accepted ->
   outcome
   = Ok (mk_attrs base weights emission_means emission_cov_diag_factors
           (stored [num_components] emission_mixture_weights_concentration)
           (stored [num_components; emission_dim] emission_prior_mean)
           (stored [num_components] emission_prior_mean_concentration)
           (stored [num_components] emission_prior_shape)
           (stored [num_components; emission_dim] emission_prior_scale)))
  /\ (~ all_accepted -> outcome = Raise AssertionError)
  /\ (forall expected x,
        expand_hyperparameter expected (PyFloat x) = Ok (full expected x)
        /\ shape (full expected x) = expected).
Proof.
  intros outcome all_accepted Hbase Hshape.
  assert (E : outcome =
    (c1 <- expand_hyperparameter [num_components]
                                 emission_mixture_weights_concentration ;;
     c2 <- expand_hyperparameter [num_components; emission_dim]
                                 emission_prior_mean ;;
     c3 <- expand_hyperparameter [num_components]
                                 emission_prior_mean_concentration ;;
     c4 <- expand_hyperparameter [num_components] emission_prior_shape ;;
     c5 <- expand_hyperparameter [num_components; emission_dim]
                                 emission_prior_scale ;;
     Ok (mk_attrs base weights emission_means emission_cov_diag_factors
                  c1 c2 c3 c4 c5))).
  { unfold outcome, __init__, unpack_shape3. rewrite Hbase, Hshape. reflexivity. }
  split; [|split].
  - intros (H1 & H2 & H3 & H4 & H5). rewrite E.
    rewrite !expand_accepted by assumption. reflexivity.
  - intros Hnot. rewrite E.
    destruct (accepted_dec [num_components] emission_mixture_weights_concentration)
      as [H1|H1]; [rewrite (expand_accepted _ _ H1)
                  |now rewrite (expand_rejected _ _ H1)].
    destruct (accepted_dec [num_components; emission_dim] emission_prior_mean)
      as [H2|H2]; [rewrite (expand_accepted _ _ H2)
                  |now rewrite (expand_rejected _ _ H2)].
    destruct (accepted_dec [num_components] emission_prior_mean_concentration)
      as [H3|H3]; [rewrite (expand_accepted _ _ H3)
                  |now rewrite (expand_rejected _ _ H3)].
    destruct (accepted_dec [num_components] emission_prior_shape)
      as [H4|H4]; [rewrite (expand_accepted _ _ H4)
                  |now rewrite (expand_rejected _ _ H4)].
    destruct (accepted_dec [num_components; emission_dim] emission_prior_scale)
      as [H5|H5]; [|now rewrite (expand_rejected _ _ H5)].
    exfalso. apply Hnot. repeat split; assumption.
  - intros expected x. split; [|reflexivity].
    now apply (expand_accepted expected (PyFloat x)).
Qed.

End ConstructorProperties.

Lemma constructor_checks_shapes_witness :
  let means := mk_ndarray [1; 2; 1]%nat [Fin 0; Fin 2] in
  let ones := mk_ndarray [1; 2; 1]%nat [Fin 1; Fin 1] in
  let weights := mk_ndarray [1; 2]%nat [Fin (1 / 2); Fin (1 / 2)] in
  let pi := mk_ndarray [1]%nat [Fin 1] in
  let A := mk_ndarray [1; 1]%nat [Fin 1] in
  let too_long := PyArray (mk_ndarray [3]%nat [Fin 2; Fin 2; Fin 2]) in
  __init__ storing_init pi A weights means ones
           (PyFloat (Fin (11 / 10))) (PyFloat (Fin (11 / 10)))
           too_long (PyFloat (Fin 0)) (PyFloat (Fin 1)) (PyFloat (Fin 1))
           (PyFloat (Fin 1))
  = Raise AssertionError.
Proof.
  intros means ones weights pi A too_long.
  refine (proj1 (proj2 (constructor_checks_shapes
                          storing_init pi A weights means ones
                          (PyFloat (Fin (11 / 10))) (PyFloat (Fin (11 / 10)))
                          too_long (PyFloat (Fin 0)) (PyFloat (Fin 1))
                          (PyFloat (Fin 1)) (PyFloat (Fin 1))
                          _ 1%nat 2%nat 1%nat _ _)) _).
  - reflexivity.
  - reflexivity.
  - intros (H & _). discriminate H.
Defined.

(* ================================================================= *)
(** * Further properties of the E-step *)

(** ** Real-valued sums *)

Lemma finite_xval a : finite a -> a = Fin (xval a).
Proof. now intros [r ->]. Qed.

Lemma Rsum_nonneg l : Forall (fun r => 0 <= r) l -> 0 <= Rsum l.
Proof. induction 1; simpl; lra. Qed.

Lemma Rsum_ge_elem l r : Forall (fun r => 0 <= r) l -> In r l -> r <= Rsum l.
Proof.
  induction 1 as [|a l Ha Hl IH]; intros Hin; [destruct Hin|].
  pose proof (Rsum_nonneg l Hl). destruct Hin as [<-|Hin]; simpl.
  - lra.
  - specialize (IH Hin). lra.
Qed.

Lemma Rsum_map_le {A} (f g : A -> R) l :
  (forall a, In a l -> f a <= g a) -> Rsum (map f l) <= Rsum (map g l).
Proof.
  induction l as [|a l IH]; intros H; simpl; [lra|].
  pose proof (H a (or_introl eq_refl)).
  assert (Rsum (map f l) <= Rsum (map g l)) by (apply IH; intros; apply H; now right).
  lra.
Qed.

Lemma Rsum_map_nonneg {A} (f : A -> R) l :
  (forall a, In a l -> 0 <= f a) -> 0 <= Rsum (map f l).
Proof.
  intros H. apply Rsum_nonneg, Forall_forall. intros r Hr.
  apply in_map_iff in Hr. destruct Hr as (a & <- & Ha). now apply H.
Qed.

Lemma Rsum_map_add {A} (f g : A -> R) l :
  Rsum (map (fun a => f a + g a) l) = Rsum (map f l) + Rsum (map g l).
Proof. induction l as [|a l IH]; simpl; [lra|]. rewrite IH. lra. Qed.

Lemma Rsum_map_zero {A} (l : list A) : Rsum (map (fun _ => 0) l) = 0.
Proof. induction l as [|a l IH]; simpl; [reflexivity|]. rewrite IH. lra. Qed.

Lemma Rsum_map_scal {A} (f : A -> R) c l :
  Rsum (map (fun a => c * f a) l) = c * Rsum (map f l).
Proof. induction l as [|a l IH]; simpl; [lra|]. rewrite IH. lra. Qed.

Lemma Rsum_swap {A B} (h : A -> B -> R) la lb :
  Rsum (map (fun a => Rsum (map (fun b => h a b) lb)) la)
  = Rsum (map (fun b => Rsum (map (fun a => h a b) la)) lb).
Proof.
  induction la as [|a la IH]; simpl.
  - now rewrite Rsum_map_zero.
  - rewrite IH. now rewrite <- Rsum_map_add.
Qed.

Lemma bigsum_Fin T f h :
  (forall t, (t < T)%nat -> f t = Fin (h t)) ->
  bigsum T f = Fin (Rsum (map h (seq 0 T))).
Proof.
  intros H. rewrite (bigsum_ext T f (fun t => Fin (h t))) by assumption.
  apply xsum_map_Fin.
Qed.

(** The normalised row over the reals: entries between zero and one that sum
    to one. *)
Lemma softmax_real lp :
  Forall logval lp -> Exists finite lp ->
  exists rs,
    map (fun l => xexp (l - logsumexp lp)) lp = map Fin rs
    /\ Rsum rs = 1
    /\ Forall (fun r => 0 <= r <= 1) rs.
Proof.
  intros Hall Hex.
  pose proof (softmax_sums_to_one lp Hall Hex) as Hone.
  destruct (logsumexp_value lp Hall Hex) as (mx & _ & E). rewrite E in *.
  set (s := Rsum (map (exp_shifted mx) lp)) in *.
  assert (Hs : 0 < s) by now apply Rsum_exp_shifted_pos.
  exists (map (fun l => exp_shifted (ln s + mx) l) lp).
  assert (Hrow : map (fun l => xexp (l - Fin (ln s + mx))) lp
                 = map Fin (map (fun l => exp_shifted (ln s + mx) l) lp)).
  { rewrite map_map. apply map_ext_in. intros l Hl. apply xexp_shift.
    rewrite Forall_forall in Hall. now apply Hall. }
  assert (Hsum : Rsum (map (fun l => exp_shifted (ln s + mx) l) lp) = 1).
  { rewrite Hrow, xsum_Fin in Hone. now injection Hone. }
  assert (Hnn : Forall (fun r => 0 <= r) (map (fun l => exp_shifted (ln s + mx) l) lp)).
  { apply Forall_forall. intros r Hr. apply in_map_iff in Hr.
    destruct Hr as (l & <- & _). apply exp_shifted_nonneg. }
  split; [exact Hrow|]. split; [exact Hsum|].
  apply Forall_forall. intros r Hr. split.
  - rewrite Forall_forall in Hnn. now apply Hnn.
  - rewrite <- Hsum. now apply Rsum_ge_elem.
Qed.

Lemma responsibilities_real self x k :
  emission_shapes self -> (k < num_states self)%nat ->
  Forall finite x -> state_parameters_valid self k ->
  exists rs,
    nth k (prob_fn self x) [] = map Fin rs
    /\ length rs = num_components self
    /\ Rsum rs = 1
    /\ Forall (fun r => 0 <= r <= 1) rs.
Proof.
  intros Hs Hk Hx (Hmu & Hsig & Hw & Hpos).
  pose proof Hs as (Hms & Hcs & Hws).
  pose proof (shape3_nth _ _ _ _ k Hms Hk) as Hmk.
  pose proof (shape3_nth _ _ _ _ k Hcs Hk) as Hck.
  pose proof (shape2_nth _ _ _ k Hws Hk) as Hwk.
  rewrite prob_fn_row by assumption. cbv zeta.
  set (lp := component_logprobs _ _ _ _).
  assert (Hlen : length lp = num_components self)
    by (eapply length_component_logprobs; eauto).
  destruct (softmax_real lp) as (rs & E & Hsum & Hb).
  - now apply component_logprobs_logval.
  - eapply component_logprobs_has_finite; eauto.
  - exists rs. repeat split; try assumption.
    apply (f_equal (@length xreal)) in E. rewrite !length_map in E. lia.
Qed.

(** ** Conservation of the state's mass *)

Lemma Rsum_map_ext_in {A} (f g : A -> R) l :
  (forall a, In a l -> f a = g a) -> Rsum (map f l) = Rsum (map g l).
Proof. intros H. f_equal. now apply map_ext_in. Qed.

(** Entries of the responsibilities of state [k] at time [t], over the
    reals. *)
Lemma responsibility_entries_real self emissions t k :
  emission_shapes self -> (t < length emissions)%nat -> (k < num_states self)%nat ->
  Forall (Forall finite) emissions -> state_parameters_valid self k ->
  let rho m := xval (tget (map (prob_fn self) emissions) t k m) in
  (forall m, (m < num_components self)%nat ->
     tget (map (prob_fn self) emissions) t k m = Fin (rho m) /\ 0 <= rho m <= 1)
  /\ Rsum (map rho (seq 0 (num_components self))) = 1.
Proof.
  intros Hs Ht Hk He Hv rho.
  assert (Hx : Forall finite (nth t emissions []))
    by now apply (Forall_nth_in (Forall finite)).
  destruct (responsibilities_real self (nth t emissions []) k Hs Hk Hx Hv)
    as (rs & Erow & Hlen & Hsum & Hb).
  assert (E : forall m, (m < num_components self)%nat ->
            tget (map (prob_fn self) emissions) t k m = Fin (nth m rs 0)).
  { intros m Hm. unfold tget, mget, vget.
    rewrite (nth_map_in _ _ _ _ []) by assumption. rewrite Erow.
    now rewrite (nth_map_in _ _ _ _ 0) by lia. }
  split.
  - intros m Hm. unfold rho. rewrite (E m Hm). cbn [xval]. split; [reflexivity|].
    apply (Forall_nth_in (fun r => 0 <= r <= 1)); [assumption|lia].
  - rewrite <- Hsum, <- Hlen.
    rewrite (Rsum_map_ext_in rho (fun m => nth m rs 0)).
    + f_equal. symmetry. rewrite <- (map_id rs) at 1.
      apply (map_as_index (fun r => r) rs 0).
    + intros m Hm. apply in_seq in Hm. unfold rho. rewrite E by lia. reflexivity.
Qed.

Lemma xnonneg_finite a : xnonneg a -> finite a.
Proof. intros (r & -> & _). now exists r. Qed.

Lemma nonneg_rows_finite (a : mat) :
  Forall (Forall xnonneg) a -> Forall (Forall finite) a.
Proof.
  intros H. eapply Forall_impl; [|exact H]. intros row Hrow.
  eapply Forall_impl; [|exact Hrow]. apply xnonneg_finite.
Qed.

Lemma mget_nonneg (a : mat) t k : Forall (Forall xnonneg) a -> 0 <= xval (mget a t k).
Proof.
  intros H. unfold mget, vget.
  destruct (Nat.lt_ge_cases t (length a)) as [Ht|Ht].
  - pose proof (Forall_nth_in (Forall xnonneg) a t [] H Ht) as Hrow.
    destruct (Nat.lt_ge_cases k (length (nth t a []))) as [Hk|Hk].
    + destruct (Forall_nth_in xnonneg _ k (Fin 0) Hrow Hk) as (r & -> & Hr).
      exact Hr.
    + rewrite (nth_overflow (nth t a [])) by assumption. simpl. lra.
  - rewrite (nth_overflow a) by assumption. destruct k; simpl; lra.
Qed.

Section Conservation.

Variable hmm_smoother : vec -> mat -> mat -> HMMPosterior.t.
Variable compute_transition_probs : mat -> HMMPosterior.t -> mat.
Variable _compute_conditional_logliks : GaussianMixtureDiagHMM -> mat -> mat.

Local Abbreviation smoothed self emissions :=
  (HMMPosterior.smoothed_probs
     (hmm_smoother (_compute_initial_probs self) (_compute_transition_matrices self)
                   (_compute_conditional_logliks self emissions))).

Local Abbreviation single :=
  (_single_e_step hmm_smoother compute_transition_probs
                  _compute_conditional_logliks).

(** The entries of the statistics as real sums. *)
Lemma single_e_step_entries_real self emissions k m :
  let gamma := smoothed self emissions in
  let stats := single self emissions in
  let T := length emissions in
  let g t := xval (mget gamma t k) in
  let rho t := xval (tget (map (prob_fn self) emissions) t k m) in
  let e t n := xval (mget emissions t n) in
  emission_shapes self -> shape2 T (num_states self) gamma ->
  (k < num_states self)%nat -> (m < num_components self)%nat ->
  Forall (Forall finite) emissions -> Forall (Forall finite) gamma ->
  state_parameters_valid self k ->
  mget (GMMDiagHMMSuffStats.N stats) k m
  = Fin (Rsum (map (fun t => g t * rho t) (seq 0 T)))
  /\ forall n, (n < emission_dim self)%nat ->
       tget (GMMDiagHMMSuffStats.Sx stats) k m n
       = Fin (Rsum (map (fun t => g t * rho t * e t n) (seq 0 T)))
       /\ tget (GMMDiagHMMSuffStats.SxxT stats) k m n
          = Fin (Rsum (map (fun t => g t * rho t * (e t n * e t n)) (seq 0 T))).
Proof.
  intros gamma stats T g rho e Hs Hg Hk Hm He Hgf Hv.
  destruct (single_e_step_entries hmm_smoother compute_transition_probs
              _compute_conditional_logliks self emissions k m Hs Hg Hk Hm)
    as (_ & HN & HS).
  assert (Hjoint : forall t, (t < T)%nat ->
            (mget gamma t k * tget (map (prob_fn self) emissions) t k m)%X
            = Fin (g t * rho t)).
  { intros t Ht.
    destruct (responsibility_entries_real self emissions t k Hs Ht Hk He Hv)
      as (Hr & _).
    destruct (Hr m Hm) as (-> & _).
    rewrite (finite_xval (mget gamma t k)) by now apply mget_finite.
    reflexivity. }
  split.
  - unfold stats. rewrite HN. now apply bigsum_Fin.
  - intros n Hn. destruct (HS n Hn) as [H1 H2]. unfold stats. split.
    + rewrite H1. apply bigsum_Fin. intros t Ht. rewrite Hjoint by assumption.
      rewrite (finite_xval (mget emissions t n)) by now apply mget_finite.
      reflexivity.
    + rewrite H2. apply bigsum_Fin. intros t Ht. rewrite Hjoint by assumption.
      rewrite (finite_xval (mget emissions t n)) by now apply mget_finite.
      reflexivity.
Qed.



End Conservation.

Lemma two_component_model_valid : state_parameters_valid two_component_model 0.
Proof. unfold state_parameters_valid. closed_fact. left. closed_fact. Qed.

Lemma single_state_smoother_nonneg self emissions :
  Forall (Forall xnonneg)
         (HMMPosterior.smoothed_probs
            (single_state_smoother (_compute_initial_probs self)
                                   (_compute_transition_matrices self)
                                   (mixture_conditional_logliks self emissions))).
Proof.
  eapply Forall_impl;
    [|exact (proj2 (proj2 (single_state_smoother_rows self emissions)))].
  intros row [H _]. exact H.
Qed.



(** ** Scale of the mixture weights *)

Lemma exp_shifted_from_zero mx l : exp_shifted mx l = exp_shifted 0 l * exp (- mx).
Proof.
  destruct l; simpl; try lra.
  rewrite <- exp_plus. f_equal. lra.
Qed.

(** The normalised row, written without the shift by the maximum. *)
Lemma softmax_closed_form lp :
  Forall logval lp -> Exists finite lp ->
  map (fun l => xexp (l - logsumexp lp)) lp
  = map (fun l => Fin (exp_shifted 0 l / Rsum (map (exp_shifted 0) lp))) lp.
Proof.
  intros Hall Hex.
  destruct (logsumexp_value lp Hall Hex) as (mx & _ & ->).
  pose proof (Rsum_exp_shifted_pos mx lp Hex) as Hs.
  pose proof (Rsum_exp_shifted_pos 0 lp Hex) as Hs0.
  assert (E : Rsum (map (exp_shifted mx) lp)
              = exp (- mx) * Rsum (map (exp_shifted 0) lp)).
  { rewrite <- Rsum_map_scal. apply Rsum_map_ext_in. intros l _.
    rewrite exp_shifted_from_zero. ring. }
  apply map_ext_in. intros l Hl.
  rewrite xexp_shift by (rewrite Forall_forall in Hall; now apply Hall).
  rewrite exp_shifted_ln by assumption. f_equal.
  rewrite E, (exp_shifted_from_zero mx l).
  pose proof (exp_pos (- mx)). field. split; lra.
Qed.

Lemma logval_shift a l : logval l -> logval (l + Fin a)%X.
Proof. intros [->|[r ->]]; [now left|right; eexists; reflexivity]. Qed.

Lemma exp_shifted_shift a l :
  logval l -> exp_shifted 0 (l + Fin a)%X = exp_shifted 0 l * exp a.
Proof.
  intros [->|[r ->]]; simpl; [lra|].
  rewrite <- exp_plus. f_equal. lra.
Qed.

(** Adding a constant to every log-probability leaves the normalised row
    unchanged. *)
Lemma softmax_shift a lp :
  Forall logval lp -> Exists finite lp ->
  let lp' := map (fun l => (l + Fin a)%X) lp in
  map (fun l => xexp (l - logsumexp lp')) lp'
  = map (fun l => xexp (l - logsumexp lp)) lp.
Proof.
  intros Hall Hex lp'.
  assert (Hall' : Forall logval lp').
  { unfold lp'. apply Forall_forall. intros l' Hl'. apply in_map_iff in Hl'.
    destruct Hl' as (l & <- & Hl). apply logval_shift.
    rewrite Forall_forall in Hall. now apply Hall. }
  assert (Hex' : Exists finite lp').
  { unfold lp'. apply Exists_exists in Hex. destruct Hex as (l & Hl & [r ->]).
    apply Exists_exists. exists (Fin r + Fin a)%X. split.
    - apply in_map_iff. now exists (Fin r).
    - eexists. reflexivity. }
  rewrite !softmax_closed_form by assumption.
  pose proof (Rsum_exp_shifted_pos 0 lp Hex) as Hs0.
  assert (E : Rsum (map (exp_shifted 0) lp')
              = exp a * Rsum (map (exp_shifted 0) lp)).
  { unfold lp'. rewrite map_map, <- Rsum_map_scal. apply Rsum_map_ext_in.
    intros l Hl. rewrite exp_shifted_shift; [ring|].
    rewrite Forall_forall in Hall. now apply Hall. }
  rewrite E. unfold lp'. rewrite map_map. apply map_ext_in. intros l Hl.
  rewrite exp_shifted_shift by (rewrite Forall_forall in Hall; now apply Hall).
  f_equal. pose proof (exp_pos a). field. split; lra.
Qed.

Lemma component_logprobs_scaled_weights c x mus sigmas weights :
  0 < c ->
  Forall (Forall finite) mus -> Forall (Forall xpositive) sigmas ->
  Forall finite x -> Forall xnonneg weights ->
  component_logprobs x mus sigmas (map (xmul (Fin c)) weights)
  = map (fun l => (l + Fin (ln c))%X) (component_logprobs x mus sigmas weights).
Proof.
  intros Hc Hm. unfold component_logprobs. revert sigmas weights.
  induction Hm as [|mu mus Hmu _ IH]; intros sigmas weights Hs Hx Hw.
  - reflexivity.
  - destruct Hs as [|s sigmas Hsig Hs]; [reflexivity|].
    destruct Hw as [|w weights (r & -> & Hr) Hw]; [reflexivity|].
    cbn [map2 map]. f_equal; [|now apply IH].
    destruct (MultivariateNormalDiag_log_prob_finite mu s x Hmu Hsig Hx)
      as [d ->].
    cbn [xmul].
    destruct (Rle_lt_or_eq_dec 0 r Hr) as [Hpos|<-].
    + rewrite !xlog_pos by (try apply Rmult_lt_0_compat; assumption).
      cbn [xadd]. f_equal. rewrite ln_mult by assumption. ring.
    + rewrite Rmult_0_r, xlog_zero. reflexivity.
Qed.

Lemma scaled_weights_shapes self c :
  emission_shapes self ->
  emission_shapes (with_mixture_weights self
                     (map (map (xmul (Fin c))) (_emission_mixture_weights self))).
Proof.
  intros (Hm & Hc & [Hl Hr]). unfold emission_shapes, with_mixture_weights.
  cbn. repeat split; try apply Hm; try apply Hc.
  - now rewrite length_map.
  - apply Forall_forall. intros row Hin. apply in_map_iff in Hin.
    destruct Hin as (row' & <- & Hin'). rewrite length_map.
    rewrite Forall_forall in Hr. now apply Hr.
Qed.

(** X3.  The responsibilities depend on the mixture weights only up to a
    positive factor: multiplying every weight of a model with usable
    parameters by the same [c > 0] leaves [prob_fn] unchanged, so weights that
    are not normalised give the responsibilities of the normalised ones. *)
Theorem responsibilities_ignore_weight_scale (self : GaussianMixtureDiagHMM)
        (c : R) (x : vec) :
  0 < c ->
  emission_shapes self -> Forall finite x ->
  (forall k, (k < num_states self)%nat -> state_parameters_valid self k) ->
  prob_fn (with_mixture_weights self
             (map (map (xmul (Fin c))) (_emission_mixture_weights self))) x
  = prob_fn self x.
Proof.
  intros Hc Hs Hx Hv.
  set (self' := with_mixture_weights self _).
  pose proof (scaled_weights_shapes self c Hs) as Hs'. fold self' in Hs'.
  destruct (prob_fn_shape self x Hs) as [HL _].
  destruct (prob_fn_shape self' x Hs') as [HL' _].
  change (num_states self') with (num_states self) in *.
  apply (nth_ext _ _ [] []); [lia|].
  intros k Hk. rewrite HL' in Hk.
  rewrite (prob_fn_row self' x k Hs' Hk), (prob_fn_row self x k Hs Hk). cbv zeta.
  destruct (Hv k Hk) as (Hmu & Hsig & Hw & Hpos).
  pose proof Hs as (Hms & Hcs & Hws).
  change (_emission_means self') with (_emission_means self).
  change (_emission_cov_diag_factors self') with (_emission_cov_diag_factors self).
  change (_emission_mixture_weights self')
    with (map (map (xmul (Fin c))) (_emission_mixture_weights self)).
  replace (nth k (map (map (xmul (Fin c))) (_emission_mixture_weights self)) [])
    with (map (xmul (Fin c)) (nth k (_emission_mixture_weights self) []))
    by (symmetry; apply (nth_map_in _ _ _ _ []); destruct Hws; lia).
  rewrite component_logprobs_scaled_weights by assumption.
  apply softmax_shift.
  - now apply component_logprobs_logval.
  - eapply component_logprobs_has_finite; eauto using shape3_nth, shape2_nth.
Qed.

Lemma responsibilities_ignore_weight_scale_witness :
  prob_fn (with_mixture_weights two_component_model
             (map (map (xmul (Fin 2)))
                  (_emission_mixture_weights two_component_model))) [Fin 1]
  = prob_fn two_component_model [Fin 1].
Proof.
  refine (responsibilities_ignore_weight_scale two_component_model 2 [Fin 1]
            _ _ _ _).
  - lra.
  - exact two_component_model_shapes.
  - closed_fact.
  - intros k Hk. cbn in Hk. destruct k as [|k]; [|lia].
    exact two_component_model_valid.
Defined.

(** ** A state without mixture weights *)

Lemma xmul_NaN_r a : (a * NaN)%X = NaN.
Proof. now destruct a. Qed.

Lemma bigsum_NaN T f :
  (0 < T)%nat -> (forall t, (t < T)%nat -> f t = NaN) -> bigsum T f = NaN.
Proof.
  intros HT H. rewrite (bigsum_ext T f (fun _ => NaN)) by assumption.
  unfold bigsum. destruct T as [|T]; [lia|]. reflexivity.
Qed.

Lemma component_logprobs_all_zero_weights x mus sigmas weights :
  Forall (Forall finite) mus -> Forall (Forall xpositive) sigmas ->
  Forall finite x -> Forall (fun w => w = Fin 0) weights ->
  Forall (fun l => l = NInf) (component_logprobs x mus sigmas weights).
Proof.
  unfold component_logprobs. intros Hm. revert sigmas weights.
  induction Hm as [|mu mus Hmu _ IH]; intros sigmas weights Hs Hx Hw.
  - constructor.
  - destruct Hs as [|s sigmas Hsig Hs]; [constructor|].
    destruct Hw as [|w weights -> Hw]; [constructor|].
    cbn [map2 map]. constructor; [|now apply IH].
    destruct (MultivariateNormalDiag_log_prob_finite mu s x Hmu Hsig Hx)
      as [d ->].
    now rewrite xlog_zero.
Qed.

Lemma logsumexp_all_minus_infinity lp :
  Forall (fun l => l = NInf) lp -> logsumexp lp = NInf.
Proof.
  intros H. unfold logsumexp.
  assert (Hmax : xmaximum lp = NInf).
  { induction H as [|l lp -> _ IH]; simpl; [reflexivity|]. now rewrite IH. }
  rewrite Hmax. cbn [xisfinite].
  rewrite (map_ext_in _ (fun _ => Fin 0)).
  - rewrite (xsum_map_Fin (fun _ => 0)), Rsum_map_zero, xlog_zero. reflexivity.
  - intros l Hl. rewrite Forall_forall in H. now rewrite (H l Hl).
Qed.

Section AllZeroWeights.

Variable hmm_smoother : vec -> mat -> mat -> HMMPosterior.t.
Variable compute_transition_probs : mat -> HMMPosterior.t -> mat.
Variable _compute_conditional_logliks : GaussianMixtureDiagHMM -> mat -> mat.

Local Abbreviation smoothed self emissions :=
  (HMMPosterior.smoothed_probs
     (hmm_smoother (_compute_initial_probs self) (_compute_transition_matrices self)
                   (_compute_conditional_logliks self emissions))).

Local Abbreviation single :=
  (_single_e_step hmm_smoother compute_transition_probs
                  _compute_conditional_logliks).


End AllZeroWeights.

Lemma weightless_model_shapes : emission_shapes weightless_model.
Proof. unfold emission_shapes, weightless_model. closed_fact. Qed.


(* ================================================================= *)
(** * Further properties of the M-step *)

(** ** Order of the batch *)

Lemma xadd_0_r a : (a + Fin 0 = a)%X.
Proof. rewrite xadd_comm. apply xadd_0_l. Qed.

Lemma xsum_perm l l' : Permutation l l' -> xsum l = xsum l'.
Proof.
  induction 1 as [|a l l' _ IH|a b l|l l' l'' _ IH1 _ IH2]; simpl.
  - reflexivity.
  - now rewrite IH.
  - rewrite !xadd_assoc. f_equal. apply xadd_comm.
  - now rewrite IH1.
Qed.

Lemma sum_axis0_r2_perm K a a' :
  Permutation a a' -> sum_axis0_r2 K a = sum_axis0_r2 K a'.
Proof.
  intros H. unfold sum_axis0_r2. apply tabulate_ext. intros k _.
  apply xsum_perm. now apply Permutation_map.
Qed.

Lemma sum_axis0_r3_perm K M a a' :
  Permutation a a' -> sum_axis0_r3 K M a = sum_axis0_r3 K M a'.
Proof.
  intros H. unfold sum_axis0_r3. apply tabulate_ext. intros k _.
  apply sum_axis0_r2_perm. now apply Permutation_map.
Qed.

Lemma sum_axis0_r4_perm K M D a a' :
  Permutation a a' -> sum_axis0_r4 K M D a = sum_axis0_r4 K M D a'.
Proof.
  intros H. unfold sum_axis0_r4. apply tabulate_ext. intros k _.
  apply sum_axis0_r3_perm. now apply Permutation_map.
Qed.

Lemma sum_batch_perm self bp bp' :
  Permutation bp bp' -> sum_batch self bp = sum_batch self bp'.
Proof.
  intros H. unfold sum_batch. cbv zeta. f_equal.
  - apply xsum_perm. now apply Permutation_map.
  - apply sum_axis0_r2_perm. now apply Permutation_map.
  - apply sum_axis0_r3_perm. now apply Permutation_map.
  - apply sum_axis0_r3_perm. now apply Permutation_map.
  - apply sum_axis0_r4_perm. now apply Permutation_map.
  - apply sum_axis0_r4_perm. now apply Permutation_map.
Qed.

Lemma m_step_emissions_perm self A A' bp bp' :
  Permutation bp bp' ->
  _m_step_emissions self A bp = _m_step_emissions self A' bp'.
Proof.
  intros H. unfold _m_step_emissions. cbv zeta.
  now rewrite (sum_batch_perm self bp bp').
Qed.

Section CycleOrder.
Variable hmm_smoother : vec -> mat -> mat -> HMMPosterior.t.
Variable compute_transition_probs : mat -> HMMPosterior.t -> mat.
Variable _compute_conditional_logliks : GaussianMixtureDiagHMM -> mat -> mat.

Local Abbreviation estep :=
  (e_step hmm_smoother compute_transition_probs _compute_conditional_logliks).

(** X5.  One cycle of E-step and emissions M-step does not depend on the order
    of the sequences in the batch: for any reordering of the batch the updated
    model is the same. *)
Theorem em_cycle_ignores_batch_order (self : GaussianMixtureDiagHMM)
        (A A' : list mat) :
  Permutation A A' ->
  _m_step_emissions self A (estep self A)
  = _m_step_emissions self A' (estep self A').
Proof.
  intros H. apply m_step_emissions_perm. now apply Permutation_map.
Qed.
End CycleOrder.

Lemma em_cycle_ignores_batch_order_witness :
  let estep := e_step single_state_smoother single_state_transition_probs
                      mixture_conditional_logliks two_component_model in
  _m_step_emissions two_component_model [first_sequence; second_sequence]
                    (estep [first_sequence; second_sequence])
  = _m_step_emissions two_component_model [second_sequence; first_sequence]
                      (estep [second_sequence; first_sequence]).
Proof.
  refine (em_cycle_ignores_batch_order
            single_state_smoother single_state_transition_probs
            mixture_conditional_logliks two_component_model
            [first_sequence; second_sequence] [second_sequence; first_sequence] _).
  apply perm_swap.
Defined.

(** ** A batch of one sequence *)
Lemma tabulate_nth {A} (l : list A) d :
  tabulate (length l) (fun i => nth i l d) = l.
Proof.
  unfold tabulate. symmetry. rewrite <- (map_id l) at 1.
  apply (map_as_index (fun x => x) l d).
Qed.

Lemma sum_axis0_r2_single K v : length v = K -> sum_axis0_r2 K [v] = v.
Proof.
  intros <-. unfold sum_axis0_r2. rewrite <- (tabulate_nth v (Fin 0)) at 2.
  apply tabulate_ext. intros k _. simpl. apply xadd_0_r.
Qed.

Lemma sum_axis0_r3_single K M a : shape2 K M a -> sum_axis0_r3 K M [a] = a.
Proof.
  intros [Hl Hr]. subst K. unfold sum_axis0_r3.
  rewrite <- (tabulate_nth a []) at 2.
  apply tabulate_ext. intros k Hk. simpl. apply sum_axis0_r2_single.
  rewrite Forall_forall in Hr. now apply Hr, nth_In.
Qed.

Lemma sum_axis0_r4_single K M D a : shape3 K M D a -> sum_axis0_r4 K M D [a] = a.
Proof.
  intros [Hl Hr]. subst K. unfold sum_axis0_r4.
  rewrite <- (tabulate_nth a []) at 2.
  apply tabulate_ext. intros k Hk. simpl. apply sum_axis0_r3_single.
  rewrite Forall_forall in Hr. now apply Hr, nth_In.
Qed.

(** X6.  For a batch of a single statistics record of the model's shapes, the
    sum over the batch is that record, and [_m_step_emissions] is the
    closed-form update of it. *)
Theorem m_step_on_single_record (self : GaussianMixtureDiagHMM)
        (batch_emissions : list mat) (r : GMMDiagHMMSuffStats.t) :
  shape2 (num_states self) (num_components self) (GMMDiagHMMSuffStats.N r) ->
  shape3 (num_states self) (num_components self) (emission_dim self)
         (GMMDiagHMMSuffStats.Sx r) ->
  shape3 (num_states self) (num_components self) (emission_dim self)
         (GMMDiagHMMSuffStats.SxxT r) ->
  _m_step_emissions self batch_emissions [r] = update_emissions self r.
Proof.
  intros HN HS HSS. unfold _m_step_emissions, sum_batch, update_emissions.
  cbv zeta. cbn [map GMMDiagHMMSuffStats.N GMMDiagHMMSuffStats.Sx
                 GMMDiagHMMSuffStats.SxxT].
  now rewrite sum_axis0_r3_single, !sum_axis0_r4_single by assumption.
Qed.

Lemma m_step_on_single_record_witness :
  _m_step_emissions two_component_model [first_sequence] [stats_of_first_sequence]
  = update_emissions two_component_model stats_of_first_sequence.
Proof.
  refine (m_step_on_single_record two_component_model [first_sequence]
                                  stats_of_first_sequence _ _ _);
    unfold stats_of_first_sequence; closed_fact.
Defined.

(** ** States without data *)

Lemma map2_xadd_zeros c z :
  length z = length c -> (forall i, (i < length z)%nat -> nth i z (Fin 0) = Fin 0) ->
  map2 xadd c z = c.
Proof.
  revert z. induction c as [|a c IH]; intros [|b z] Hl Hz; simpl in *;
    try discriminate; auto.
  f_equal.
  - rewrite (Hz 0%nat) by lia. apply xadd_0_r.
  - apply IH; [lia|]. intros i Hi. apply (Hz (S i)). lia.
Qed.

Lemma tabulate_const {A} n (c : A) : tabulate n (fun _ => c) = repeat c n.
Proof.
  unfold tabulate. generalize 0%nat.
  induction n as [|n IH]; intros s; simpl; [reflexivity|]. now rewrite IH.
Qed.

Lemma length_Dirichlet_mode c : length (Dirichlet_mode c) = length c.
Proof.
  unfold Dirichlet_mode. cbv zeta.
  destruct (forallb _ _); now rewrite length_map.
Qed.

Lemma Forall_from_nth {A} (P : A -> Prop) l d :
  (forall i, (i < length l)%nat -> P (nth i l d)) -> Forall P l.
Proof.
  intros H. apply Forall_forall. intros x Hx.
  destruct (In_nth _ _ d Hx) as (i & Hi & <-). now apply H.
Qed.

(** The three rows the M-step writes for state [k], from the batch. *)
Lemma m_step_emissions_state self batch_emissions batch_posteriors k :
  (k < num_states self)%nat ->
  let stats := sum_batch self batch_posteriors in
  let self' := _m_step_emissions self batch_emissions batch_posteriors in
  (nth k (_emission_mixture_weights self') [],
   nth k (_emission_cov_diag_factors self') [],
   nth k (_emission_means self') [])
  = _single_m_step self (nth k (GMMDiagHMMSuffStats.Sx stats) [])
                   (nth k (GMMDiagHMMSuffStats.SxxT stats) [])
                   (nth k (GMMDiagHMMSuffStats.N stats) []).
Proof.
  intros Hk stats self'.
  apply (update_emissions_state self stats k); try assumption.
  - apply sum_axis0_r3_shape.
  - apply sum_axis0_r4_shape.
  - apply sum_axis0_r4_shape.
Qed.

(** The row of mixture weights the M-step writes for state [k]. *)
Lemma m_step_weights_row self batch_emissions batch_posteriors k :
  (k < num_states self)%nat ->
  nth k (_emission_mixture_weights
           (_m_step_emissions self batch_emissions batch_posteriors)) []
  = Dirichlet_mode
      (map2 xadd (_emission_mixture_weights_concentration self)
            (nth k (GMMDiagHMMSuffStats.N (sum_batch self batch_posteriors)) [])).
Proof.
  intros Hk.
  pose proof (m_step_emissions_state self batch_emissions batch_posteriors k Hk) as E.
  cbv zeta in E. apply (f_equal (fun p => fst (fst p))) in E. cbn [fst] in E.
  rewrite E. reflexivity.
Qed.

Lemma summed_counts_row self batch_posteriors k :
  (k < num_states self)%nat ->
  length (nth k (GMMDiagHMMSuffStats.N (sum_batch self batch_posteriors)) [])
  = num_components self.
Proof.
  intros Hk. apply (shape2_nth (num_states self)); [|assumption].
  unfold sum_batch. cbn. apply sum_axis0_r3_shape.
Qed.





Lemma length_single_m_step self Sx SxxT N :
  prior_shapes self ->
  length Sx = num_components self -> length SxxT = num_components self ->
  length N = num_components self ->
  let r := _single_m_step self Sx SxxT N in
  length (fst (fst r)) = num_components self
  /\ length (snd (fst r)) = num_components self
  /\ length (snd r) = num_components self.
Proof.
  intros (Hc & [Hpm _] & Hk0 & Hs & [Hsc _]) HSx HSxxT HN r.
  unfold r, _single_m_step. cbv zeta. cbn [fst snd].
  rewrite length_Dirichlet_mode, length_map2, !length_map.
  rewrite (length_vmap_posterior_mode _ _ _ _ _ _ _ (num_components self))
    by assumption.
  repeat split; lia.
Qed.



(* ================================================================= *)
(** * Further properties of the constructor *)

Section ConstructorMore.

Variable StandardHMM_init :
  ndarray -> ndarray -> hyperparameter -> hyperparameter -> result StandardHMM.

(** X10.  The constructor initialises the base class first and reads the
    dimensions off the array of means second.  An exception of the base class
    is the constructor's outcome; after the base class has succeeded, an array
    of means whose rank is not three makes the unpacking of its shape raise a
    [ValueError], before any hyperparameter is looked at; and a constructor
    that returns an object had a successful base class and means of rank
    three. *)
Theorem constructor_error_order
        (initial_probabilities transition_matrix weights emission_means
           emission_cov_diag_factors : ndarray)
        (initial_probs_concentration transition_matrix_concentration
           emission_mixture_weights_concentration emission_prior_mean
           emission_prior_mean_concentration emission_prior_shape
           emission_prior_scale : hyperparameter) :
  let outcome :=
    __init__ StandardHMM_init initial_probabilities transition_matrix weights
             emission_means emission_cov_diag_factors
             initial_probs_concentration transition_matrix_concentration
             emission_mixture_weights_concentration emission_prior_mean
             emission_prior_mean_concentration emission_prior_shape
             emission_prior_scale in
  let base :=
    StandardHMM_init initial_probabilities transition_matrix
                     initial_probs_concentration transition_matrix_concentration in
  (forall e, base = Raise e -> outcome = Raise e)
  /\ (forall b, base = Ok b -> length (shape emission_means) <> 3%nat ->
      outcome = Raise ValueError)
  /\ (forall o, outcome = Ok o ->
      exists b, base = Ok b /\ length (shape emission_means) = 3%nat).
Proof.
  intros outcome base. unfold outcome, __init__. fold base.
  split; [|split].
  - intros e ->. reflexivity.
  - intros b -> Hlen. cbn [bind]. unfold unpack_shape3.
    destruct (shape emission_means) as [|k [|m [|d [|? ?]]]];
      try reflexivity. exfalso. apply Hlen. reflexivity.
  - intros o. destruct base as [b|e]; cbn [bind]; [|discriminate].
    unfold unpack_shape3.
    destruct (shape emission_means) as [|k [|m [|d [|? ?]]]];
      cbn [bind]; try discriminate.
    intros _. exists b. split; reflexivity.
Qed.

(** X11.  The constructor never inspects the mixture weights or the scale
    factors: it stores the weights, means and scale factors it was given as
    they are, and where it succeeds it also succeeds with any other weights
    and scale factors, storing the same base class and prior hyperparameters.
    Only the array of means fixes the dimensions. *)
Theorem constructor_ignores_weights_and_scales
        (initial_probabilities transition_matrix weights emission_means
           emission_cov_diag_factors weights' emission_cov_diag_factors' : ndarray)
        (initial_probs_concentration transition_matrix_concentration
           emission_mixture_weights_concentration emission_prior_mean
           emission_prior_mean_concentration emission_prior_shape
           emission_prior_scale : hyperparameter)
        (o : GaussianMixtureDiagHMM_attrs) :
  __init__ StandardHMM_init initial_probabilities transition_matrix weights
           emission_means emission_cov_diag_factors
           initial_probs_concentration transition_matrix_concentration
           emission_mixture_weights_concentration emission_prior_mean
           emission_prior_mean_concentration emission_prior_shape
           emission_prior_scale = Ok o ->
  attr_emission_mixture_weights o = weights
  /\ attr_emission_means o = emission_means
  /\ attr_emission_cov_diag_factors o = emission_cov_diag_factors
  /\ __init__ StandardHMM_init initial_probabilities transition_matrix weights'
              emission_means emission_cov_diag_factors'
              initial_probs_concentration transition_matrix_concentration
              emission_mixture_weights_concentration emission_prior_mean
              emission_prior_mean_concentration emission_prior_shape
              emission_prior_scale
     = Ok (mk_attrs (attr_base o) weights' emission_means emission_cov_diag_factors'
             (attr_emission_mixture_weights_concentration o)
             (attr_emission_prior_mean o)
             (attr_emission_prior_mean_concentration o)
             (attr_emission_prior_shape o)
             (attr_emission_prior_scale o)).
Proof.
  unfold __init__.
  destruct (StandardHMM_init _ _ _ _) as [b|e]; cbn [bind]; [|discriminate].
  destruct (unpack_shape3 emission_means) as [[[K M] D]|e]; cbn [bind];
    [|discriminate].
  destruct (expand_hyperparameter [M] emission_mixture_weights_concentration)
    as [c1|e]; cbn [bind]; [|discriminate].
  destruct (expand_hyperparameter [M; D] emission_prior_mean)
    as [c2|e]; cbn [bind]; [|discriminate].
  destruct (expand_hyperparameter [M] emission_prior_mean_concentration)
    as [c3|e]; cbn [bind]; [|discriminate].
  destruct (expand_hyperparameter [M] emission_prior_shape)
    as [c4|e]; cbn [bind]; [|discriminate].
  destruct (expand_hyperparameter [M; D] emission_prior_scale)
    as [c5|e]; cbn [bind]; [|discriminate].
  intros E. injection E as <-. repeat split.
Qed.

End ConstructorMore.

Lemma constructor_error_order_witness :
  let flat_means := mk_ndarray [2; 1]%nat [Fin 0; Fin 2] in
  let ones := mk_ndarray [1; 2; 1]%nat [Fin 1; Fin 1] in
  let weights := mk_ndarray [1; 2]%nat [Fin (1 / 2); Fin (1 / 2)] in
  let pi := mk_ndarray [1]%nat [Fin 1] in
  let A := mk_ndarray [1; 1]%nat [Fin 1] in
  __init__ storing_init pi A weights flat_means ones
           (PyFloat (Fin (11 / 10))) (PyFloat (Fin (11 / 10)))
           (PyFloat (Fin (11 / 10))) (PyFloat (Fin 0)) (PyFloat (Fin 1))
           (PyFloat (Fin 1)) (PyFloat (Fin 1))
  = Raise ValueError.
Proof.
  intros flat_means ones weights pi A.
  refine (proj1 (proj2 (constructor_error_order
                          storing_init pi A weights flat_means ones
                          (PyFloat (Fin (11 / 10))) (PyFloat (Fin (11 / 10)))
                          (PyFloat (Fin (11 / 10))) (PyFloat (Fin 0))
                          (PyFloat (Fin 1)) (PyFloat (Fin 1))
                          (PyFloat (Fin 1)))) _ _ _).
  - reflexivity.
  - cbn. discriminate.
Defined.

Lemma constructor_ignores_weights_and_scales_witness :
  let means := mk_ndarray [1; 2; 1]%nat [Fin 0; Fin 2] in
  let ones := mk_ndarray [1; 2; 1]%nat [Fin 1; Fin 1] in
  let weights := mk_ndarray [1; 2]%nat [Fin (1 / 2); Fin (1 / 2)] in
  let misshapen := mk_ndarray [5]%nat [Fin 7] in
  let pi := mk_ndarray [1]%nat [Fin 1] in
  let A := mk_ndarray [1; 1]%nat [Fin 1] in
  exists o,
    __init__ storing_init pi A misshapen means misshapen
             (PyFloat (Fin (11 / 10))) (PyFloat (Fin (11 / 10)))
             (PyFloat (Fin (11 / 10))) (PyFloat (Fin 0)) (PyFloat (Fin 1))
             (PyFloat (Fin 1)) (PyFloat (Fin 1))
    = Ok o.
Proof.
  intros means ones weights misshapen pi A. eexists.
  refine (proj2 (proj2 (proj2 (constructor_ignores_weights_and_scales
                                 storing_init pi A weights means ones
                                 misshapen misshapen
                                 (PyFloat (Fin (11 / 10)))
                                 (PyFloat (Fin (11 / 10)))
                                 (PyFloat (Fin (11 / 10))) (PyFloat (Fin 0))
                                 (PyFloat (Fin 1)) (PyFloat (Fin 1))
                                 (PyFloat (Fin 1)) _ _)))).
  reflexivity.
Defined.

Section RandomInitializationFacts.

Variable StandardHMM_init :
  ndarray -> ndarray -> hyperparameter -> hyperparameter -> result StandardHMM.
Variable PRNGKey : Type.
Variable jr_split4 : PRNGKey -> PRNGKey * PRNGKey * PRNGKey * PRNGKey.
Variable jr_dirichlet : PRNGKey -> ndarray -> list nat -> ndarray.
Variable jr_normal : PRNGKey -> list nat -> ndarray.


End RandomInitializationFacts.

